(** * Masterblog API: a shallow embedding of [backend/backend_app.py]

    The service keeps one process-wide list [POSTS] of blog posts (Python
    dicts) and serves four handlers over it: [list_posts] (GET),
    [add_post] (POST), [update_post] (PUT) and [delete_post] (DELETE).

    Modelling choices.
    - A Python dict with string keys is a [gmap string json]; a JSON
      value is the inductive [json]; the list [POSTS] is a [list] of dicts.
    - Python exceptions are the error monad [result]; a handler is a
      state-and-exception computation over the list [POSTS], and
      [try_except] is the [try: ... except Exception] frame of each handler.
    - Text is a [string] of 8-bit code points (the Latin-1 range of Python's
      [str]); [lower], [strip] and the [in] test follow Python on that range.
    - The handlers take the value that [request.get_json()] and
      [request.args.get] returned; decoding the HTTP message is Flask's. *)

From Stdlib Require Import ZArith NArith String Ascii.
From Stdlib Require Import Floats.SpecFloat.
From stdpp Require Import gmap strings list fin_maps pretty sorting.

#[local] Set Warnings "-register-all".

(* ===================================================================== *)
(** ** Text: [str.lower], [str.strip], [in], comparison *)
(* ===================================================================== *)

Module Text.

(** [str.lower] on one code point below 256: the upper-case letters are
    A-Z (65-90) and the Latin-1 capitals 192-214 and 216-222; each maps
    to the code point 32 above it. *)
Definition is_upper (c : ascii) : bool :=
  let n := N_of_ascii c in
  ((65 <=? n) && (n <=? 90) ||
   (192 <=? n) && (n <=? 214) ||
   (216 <=? n) && (n <=? 222))%N.

Definition lower_char (c : ascii) : ascii :=
  if is_upper c then ascii_of_N (N_of_ascii c + 32) else c.

Fixpoint lower (s : string) : string :=
  match s with
  | EmptyString => EmptyString
  | String c s' => String (lower_char c) (lower s')
  end.

(** [str.isspace] on one code point below 256: TAB, LF, VT, FF, CR
    (9-13), FS, GS, RS, US (28-31), space (32), NEL (133), NBSP (160). *)
Definition is_space (c : ascii) : bool :=
  let n := N_of_ascii c in
  ((9 <=? n) && (n <=? 13) ||
   (28 <=? n) && (n <=? 32) ||
   (n =? 133) || (n =? 160))%N.

Fixpoint lstrip (s : string) : string :=
  match s with
  | EmptyString => EmptyString
  | String c s' => if is_space c then lstrip s' else s
  end.

(** [rstrip] drops the trailing run of whitespace: a character is kept
    when it is not whitespace or when something is kept after it. *)
Fixpoint rstrip (s : string) : string :=
  match s with
  | EmptyString => EmptyString
  | String c s' =>
      match rstrip s' with
      | EmptyString => if is_space c then EmptyString else String c EmptyString
      | r => String c r
      end
  end.

(** [s.strip()] *)
Definition strip (s : string) : string := rstrip (lstrip s).

(** [needle in hay] on two [str]: [needle] occurs as a contiguous run. *)
Fixpoint contains (needle hay : string) : bool :=
  String.prefix needle hay ||
  match hay with
  | EmptyString => false
  | String _ hay' => contains needle hay'
  end.

(** [a < b] on two [str]: lexicographic on code points. *)
Definition lt (a b : string) : bool := String.ltb a b.

(** [bool(s)] *)
Definition nonempty (s : string) : bool :=
  match s with EmptyString => false | String _ _ => true end.

(** Every character of [s] is whitespace. *)
Fixpoint all_space (s : string) : bool :=
  match s with
  | EmptyString => true
  | String c s' => is_space c && all_space s'
  end.

End Text.

(* ===================================================================== *)
(** ** JSON values and Python's view of them *)
(* ===================================================================== *)

(** The value [request.get_json()] returns, and the values stored in a
    post. A JSON number is a Python [int] or a [float] (an IEEE double). *)
Inductive json : Type :=
  | JNull
  | JBool (b : bool)
  | JInt (z : Z)
  | JFloat (f : spec_float)
  | JStr (s : string)
  | JArr (l : list json)
  | JObj (d : gmap string json).

(** A post is a dict from field names to values. *)
Abbreviation post := (gmap string json).

(** The exceptions the handlers can meet. *)
Inductive exn : Type :=
  | KeyError
  | TypeError
  | AttributeError
  | IndexError.

Inductive result (A : Type) : Type :=
  | Ok (a : A)
  | Raise (e : exn).
Arguments Ok {A} a.
Arguments Raise {A} e.

#[global] Instance result_ret : MRet result := λ A a, Ok a.
#[global] Instance result_bind : MBind result := λ A B f m,
  match m with
  | Ok a => f a
  | Raise e => Raise e
  end.
#[global] Instance result_fmap : FMap result := λ A B f m,
  match m with
  | Ok a => Ok (f a)
  | Raise e => Raise e
  end.

Module Py.

(** [bool(v)]: [None], [False], zero, and the empty string, list and dict
    are false. *)
Definition truthy (v : json) : bool :=
  match v with
  | JNull => false
  | JBool b => b
  | JInt z => negb (z =? 0)%Z
  | JFloat f => match f with S754_zero _ => false | _ => true end
  | JStr s => Text.nonempty s
  | JArr l => match l with [] => false | _ => true end
  | JObj d => negb (bool_decide (d = ∅))
  end.

(** [f == n] for a float [f] and an int [n]: Python compares the exact
    values; [S754_finite s m e] is [(-1)^s * m * 2^e]. *)
Definition float_eq_int (f : spec_float) (n : Z) : bool :=
  match f with
  | S754_zero _ => (n =? 0)%Z
  | S754_finite s m e =>
      let v := if s then Z.neg m else Z.pos m in
      if (0 <=? e)%Z then (v * 2 ^ e =? n)%Z else (v =? n * 2 ^ (- e))%Z
  | _ => false
  end.

(** [v == n] for an int [n]; never raises. *)
Definition eq_int (v : json) (n : Z) : bool :=
  match v with
  | JInt z => (z =? n)%Z
  | JBool b => (Z.b2z b =? n)%Z
  | JFloat f => float_eq_int f n
  | _ => false
  end.

(** [v == s] for a str [s]; never raises. *)
Definition eq_str (v : json) (s : string) : bool :=
  match v with
  | JStr t => String.eqb t s
  | _ => false
  end.

(** [s in v] for a str [s]: a key of a dict, an element of a list, a
    substring of a str; [TypeError] on a number or a bool. *)
Definition str_in (s : string) (v : json) : result bool :=
  match v with
  | JObj d => Ok (bool_decide (is_Some (d !! s)))
  | JArr l => Ok (existsb (λ x, eq_str x s) l)
  | JStr t => Ok (Text.contains s t)
  | _ => Raise TypeError
  end.

(** [v.lower()]: only a str has the method. *)
Definition lower (v : json) : result string :=
  match v with
  | JStr s => Ok (Text.lower s)
  | _ => Raise AttributeError
  end.

(** [d[k]] on a dict *)
Definition getitem (d : post) (k : string) : result json :=
  match d !! k with
  | Some v => Ok v
  | None => Raise KeyError
  end.

(** [d.get(k, default)] on a dict *)
Definition get (d : post) (k : string) (default : json) : json :=
  match d !! k with
  | Some v => v
  | None => default
  end.

(** [v[k] = x]: a dict takes the entry; a list wants an int index and a
    str takes no assignment, as does a number. *)
Definition setitem (v : json) (k : string) (x : json) : result post :=
  match v with
  | JObj d => Ok (<[k := x]> d)
  | _ => Raise TypeError
  end.

(** [v.items()]: only a dict has the method. *)
Definition items (v : json) : result (list (string * json)) :=
  match v with
  | JObj d => Ok (map_to_list d)
  | _ => Raise AttributeError
  end.

(** [str(n)] for a non-negative int, as an f-string prints it. *)
Definition str_of_int (n : N) : string := pretty n.

End Py.

(** The seed data *)
Definition POSTS : list post :=
  [ {[ "id" := JInt 1; "title" := JStr "Hello World";
       "content" := JStr "This is my first post." ]};
    {[ "id" := JInt 2; "title" := JStr "Flask Tutorial";
       "content" := JStr "Learn Flask with me." ]};
    {[ "id" := JInt 3; "title" := JStr "Python Tips";
       "content" := JStr "Useful Python tricks." ]} ].

(* ===================================================================== *)
(** ** Handlers as computations over the global list *)
(* ===================================================================== *)

(** A computation reads and writes the global list and may raise; what it
    wrote before raising stays written. *)
Definition handler (A : Type) : Type := list post → result A * list post.

#[global] Instance handler_ret : MRet handler := λ A a s, (Ok a, s).
#[global] Instance handler_bind : MBind handler := λ A B f m s,
  match m s with
  | (Ok a, s') => f a s'
  | (Raise e, s') => (Raise e, s')
  end.

Module Store.

(** A pure step that may raise. *)
Definition lift {A} (r : result A) : handler A := λ s, (r, s).

(** Read the global list: [POSTS], and [POSTS.copy()], a list of the same
    dicts. *)
Definition read : handler (list post) := λ s, (Ok s, s).

(** [POSTS.append(p)] *)
Definition append (p : post) : handler () := λ s, (Ok (), s ++ [p]).

(** [POSTS.pop(i)] *)
Definition pop (i : nat) : handler () := λ s,
  if decide (i < length s) then (Ok (), delete i s) else (Raise IndexError, s).

(** [post[k] = v] where [post] is the dict at index [i] of the list *)
Definition setitem (i : nat) (k : string) (v : json) : handler () := λ s,
  match s !! i with
  | Some p => (Ok (), <[i := <[k := v]> p]> s)
  | None => (Raise IndexError, s)
  end.

(** The dict at index [i] of the list *)
Definition getpost (i : nat) : handler post := λ s,
  match s !! i with
  | Some p => (Ok p, s)
  | None => (Raise IndexError, s)
  end.

End Store.

(** A response: the status code and what [jsonify] was given. The body of
    a 500 response is [{"error": "Interner Serverfehler", "details": str(e)}];
    it is kept as the exception [e], whose text is the interpreter's. *)
Inductive payload : Type :=
  | Jsonify (j : json)
  | ServerError (e : exn).

Record response : Type := Response { status : nat; body : payload }.

(** The [try: ... except Exception as e: return ..., 500] frame *)
Definition try_except (m : handler response) (s : list post)
  : response * list post :=
  match m s with
  | (Ok r, s') => (r, s')
  | (Raise e, s') => (Response 500 (ServerError e), s')
  end.

(** [jsonify(posts)] for a list of dicts *)
Definition json_of_posts (posts : list post) : json := JArr (JObj <$> posts).

(* --------------------------------------------------------------------- *)
(** *** [sort_posts] *)

(** [sorted(..., reverse=reverse)] on a list already paired with its keys:
    a stable sort that compares keys with [<] only. An element moves behind
    exactly those placed elements whose key is strictly before its own in
    the requested order, so equal keys keep their first-to-last order in
    both directions. Keys are totally ordered, so every stable sort returns
    this list. *)
Definition goes_before (reverse : bool) (a b : string) : bool :=
  if reverse then Text.lt b a else Text.lt a b.

Fixpoint insert_sorted {A} (reverse : bool) (x : string * A)
    (l : list (string * A)) : list (string * A) :=
  match l with
  | [] => [x]
  | y :: l' =>
      if goes_before reverse y.1 x.1
      then y :: insert_sorted reverse x l'
      else x :: y :: l'
  end.

Fixpoint sorted {A} (keyed : list (string * A)) (reverse : bool)
  : list (string * A) :=
  match keyed with
  | [] => []
  | x :: rest => insert_sorted reverse x (sorted rest reverse)
  end.

(** [post.get(sort_field, default).lower()], the default being the empty
    string *)
Definition sort_key (sort_field : string) (p : post) : result string :=
  Py.lower (Py.get p sort_field (JStr EmptyString)).

Definition sort_posts (posts : list post) (sort_field direction : string)
  : result (list post) :=
  if negb (String.eqb sort_field "title" || String.eqb sort_field "content")
  then Ok posts
  else
    let reverse := String.eqb direction "desc" in
    keyed ← mapM (λ p, k ← sort_key sort_field p; Ok (k, p)) posts;
    Ok (snd <$> sorted keyed reverse).

(* --------------------------------------------------------------------- *)
(** *** [search_posts] *)

(** The condition of the comprehension; [or] does not evaluate its right
    side when the left side holds. *)
Definition post_matches (query_lower : string) (p : post) : result bool :=
  title ← Py.lower (Py.get p "title" (JStr EmptyString));
  if Text.contains query_lower title then Ok true
  else
    content ← Py.lower (Py.get p "content" (JStr EmptyString));
    Ok (Text.contains query_lower content).

Fixpoint comprehension (query_lower : string) (posts : list post)
  : result (list post) :=
  match posts with
  | [] => Ok []
  | p :: rest =>
      keep ← post_matches query_lower p;
      rest' ← comprehension query_lower rest;
      Ok (if keep : bool then p :: rest' else rest')
  end.

Definition search_posts (posts : list post) (query : string)
  : result (list post) :=
  if negb (Text.nonempty query) then Ok posts
  else comprehension (Text.lower query) posts.

(* --------------------------------------------------------------------- *)
(** *** [list_posts]: GET /api/posts *)

(** [request.args]: each parameter is absent or a string. *)
Record query : Type := Query {
  search : option string;
  sort : option string;
  direction : option string
}.

Definition no_params : query := Query None None None.

(** The text of the direction error; its fourth letter is U+00FC. *)
Definition invalid_direction_error : string :=
  String.append "Ung"
    (String (ascii_of_N 252) "ltige Sortierrichtung. Erlaubt: 'asc', 'desc'").

Definition list_posts_try (args : query) : handler response :=
  result_posts ← Store.read;
  let search_query := Text.strip (default EmptyString (search args)) in
  result_posts ← Store.lift (search_posts result_posts search_query);
  let sort_field := sort args in
  let direction := default "asc"%string (direction args) in
  match sort_field with
  | Some sort_field =>
      if Text.nonempty sort_field then
        if negb (String.eqb direction "asc" || String.eqb direction "desc")
        then
          mret (Response 400 (Jsonify (JObj
            {[ "error" := JStr invalid_direction_error ]})))
        else
          result_posts ← Store.lift (sort_posts result_posts sort_field direction);
          mret (Response 200 (Jsonify (json_of_posts result_posts)))
      else mret (Response 200 (Jsonify (json_of_posts result_posts)))
  | None => mret (Response 200 (Jsonify (json_of_posts result_posts)))
  end.

Definition list_posts (args : query) : list post → response * list post :=
  try_except (list_posts_try args).

(* --------------------------------------------------------------------- *)
(** *** [add_post]: POST /api/posts *)

(** [max((post["id"] for post in POSTS), default=0)]: the ids are taken
    one by one ([KeyError] where a post has none) and a later one replaces
    the running maximum when it is greater. Ids are compared as ints, which
    is what every handler writes (see [reachable_inv]); an id of another
    type is answered with [TypeError] here. *)
Definition int_of (v : json) : result Z :=
  match v with
  | JInt z => Ok z
  | _ => Raise TypeError
  end.

Definition post_id_int (p : post) : result Z :=
  v ← Py.getitem p "id"; int_of v.

Fixpoint max_from (best : Z) (posts : list post) : result Z :=
  match posts with
  | [] => Ok best
  | p :: rest =>
      z ← post_id_int p;
      max_from (if (best <? z)%Z then z else best) rest
  end.

Definition max_id (posts : list post) (default : Z) : result Z :=
  match posts with
  | [] => Ok default
  | p :: rest => z ← post_id_int p; max_from z rest
  end.

Definition missing_of (has_title has_content : bool) : list string :=
  (if has_title then [] else ["title"%string]) ++
  (if has_content then [] else ["content"%string]).

Definition add_post_try (new_post : json) : handler response :=
  if negb (Py.truthy new_post) then
    mret (Response 400 (Jsonify (JObj
      {[ "error" := JStr "Keine Daten gesendet" ]})))
  else
    has_title ← Store.lift (Py.str_in "title" new_post);
    has_content ← Store.lift (Py.str_in "content" new_post);
    let missing_fields := missing_of has_title has_content in
    match missing_fields with
    | _ :: _ =>
        mret (Response 400 (Jsonify (JObj
          {[ "error" := JStr "Fehlende Pflichtfelder";
             "missing_fields" := JArr (JStr <$> missing_fields) ]})))
    | [] =>
        posts ← Store.read;
        m ← Store.lift (max_id posts 0);
        let new_id := (m + 1)%Z in
        new_post ← Store.lift (Py.setitem new_post "id" (JInt new_id));
        Store.append new_post;;
        mret (Response 201 (Jsonify (JObj new_post)))
    end.

Definition add_post (new_post : json) : list post → response * list post :=
  try_except (add_post_try new_post).

(* --------------------------------------------------------------------- *)
(** *** [update_post] and [delete_post] *)

(** The loop [for i, post in enumerate(POSTS): if post["id"] == post_id]:
    the index of the first post whose id equals [post_id], if any. *)
Fixpoint find_post (posts : list post) (post_id : Z) (i : nat)
  : result (option nat) :=
  match posts with
  | [] => Ok None
  | p :: rest =>
      v ← Py.getitem p "id";
      if Py.eq_int v post_id then Ok (Some i)
      else find_post rest post_id (S i)
  end.

(** [f"Kein Post mit ID {post_id} vorhanden."] *)
Definition not_found_message (post_id : N) : string :=
  String.append "Kein Post mit ID "
    (String.append (Py.str_of_int post_id) " vorhanden.").

Definition not_found (post_id : N) : response :=
  Response 404 (Jsonify (JObj
    {[ "error" := JStr "Post nicht gefunden";
       "message" := JStr (not_found_message post_id) ]})).

(** [for key, value in items: if key != "id": post[key] = value] on the
    post at index [i] *)
Fixpoint merge_items (i : nat) (items : list (string * json)) : handler () :=
  match items with
  | [] => mret ()
  | (key, value) :: rest =>
      (if negb (String.eqb key "id") then Store.setitem i key value
       else mret ());;
      merge_items i rest
  end.

(** The path converter [<int:post_id>] accepts digits only, so [post_id]
    is a natural number. *)
Definition update_post_try (post_id : N) (updated_data : json)
  : handler response :=
  if negb (Py.truthy updated_data) then
    mret (Response 400 (Jsonify (JObj
      {[ "error" := JStr "Keine Daten gesendet" ]})))
  else
    posts ← Store.read;
    found ← Store.lift (find_post posts (Z.of_N post_id) 0);
    match found with
    | Some i =>
        items ← Store.lift (Py.items updated_data);
        merge_items i items;;
        p ← Store.getpost i;
        mret (Response 200 (Jsonify (JObj p)))
    | None => mret (not_found post_id)
    end.

Definition update_post (post_id : N) (updated_data : json)
  : list post → response * list post :=
  try_except (update_post_try post_id updated_data).

(** [f"Post with id {post_id} has been deleted successfully."] *)
Definition deleted_message (post_id : N) : string :=
  String.append "Post with id "
    (String.append (Py.str_of_int post_id) " has been deleted successfully.").

Definition delete_post_try (post_id : N) : handler response :=
  posts ← Store.read;
  found ← Store.lift (find_post posts (Z.of_N post_id) 0);
  match found with
  | Some i =>
      Store.pop i;;
      mret (Response 200 (Jsonify (JObj
        {[ "message" := JStr (deleted_message post_id) ]})))
  | None => mret (not_found post_id)
  end.

Definition delete_post (post_id : N) : list post → response * list post :=
  try_except (delete_post_try post_id).

(* --------------------------------------------------------------------- *)
(** *** The routes *)

Inductive request : Type :=
  | GET (args : query)
  | POST (body : json)
  | PUT (post_id : N) (body : json)
  | DELETE (post_id : N).

Definition handle (r : request) : list post → response * list post :=
  match r with
  | GET args => list_posts args
  | POST b => add_post b
  | PUT post_id b => update_post post_id b
  | DELETE post_id => delete_post post_id
  end.

(** The lists the running service can hold: the seed, and what a request
    leaves behind. *)
Inductive reachable : list post → Prop :=
  | reachable_seed : reachable POSTS
  | reachable_step s r : reachable s → reachable (handle r s).2.

(* ===================================================================== *)
(** ** Vocabulary of the specification *)
(* ===================================================================== *)

(** The id of a post, when it has one and it is an int. *)
Definition id_of (p : post) : option Z :=
  match p !! "id" with
  | Some (JInt z) => Some z
  | _ => None
  end.

Definition ids (s : list post) : list Z := omap id_of s.

(** Every post carries an int id. *)
Definition int_ids (s : list post) : Prop :=
  Forall (λ p, is_Some (id_of p)) s.

(** The invariant of the collection: int ids, pairwise distinct. *)
Definition unique_ids (s : list post) : Prop := int_ids s ∧ NoDup (ids s).

(** [n] is one more than the greatest id of [s], and 1 when [s] is empty. *)
Definition is_next_id (s : list post) (n : Z) : Prop :=
  (s = [] ∧ n = 1%Z) ∨
  ((n - 1)%Z ∈ ids s ∧ ∀ z, z ∈ ids s → (z ≤ n - 1)%Z).

(** A field is absent or holds text. *)
Definition is_text (o : option json) : Prop :=
  match o with
  | None | Some (JStr _) => True
  | Some _ => False
  end.

Definition text_fields (s : list post) : Prop :=
  Forall (λ p, is_text (p !! "title") ∧ is_text (p !! "content")) s.

(** The text of a field, a missing field being the empty string. *)
Definition field_text (p : post) (k : string) : string :=
  match p !! k with
  | Some (JStr t) => t
  | _ => EmptyString
  end.

(** Case-insensitive substring: [q] occurs in [t] once both are lowered. *)
Definition occurs_in (q t : string) : Prop :=
  ∃ pre suf, Text.lower t = pre +:+ Text.lower q +:+ suf.

(** The search condition: the query occurs in the title or in the content. *)
Definition search_hit (q : string) (p : post) : Prop :=
  occurs_in q (field_text p "title") ∨ occurs_in q (field_text p "content").

(** [out] is [l] with the elements that satisfy [P] kept, in their order,
    and the others dropped. *)
Inductive filtered_by {A} (P : A → Prop) : list A → list A → Prop :=
  | filtered_nil : filtered_by P [] []
  | filtered_keep x l out :
      P x → filtered_by P l out → filtered_by P (x :: l) (x :: out)
  | filtered_drop x l out :
      ¬ P x → filtered_by P l out → filtered_by P (x :: l) out.

(** The order a direction asks for: a key [a] may stand before a key [b]. *)
Definition in_order (reverse : bool) (a b : string) : Prop :=
  if reverse then String.leb b a = true else String.leb a b = true.

(** [out] is [l] sorted by [key] in the direction asked for, each group of
    equal keys in the order it has in [l]. *)
Definition stable_sort_of (key : post → string) (reverse : bool)
    (l out : list post) : Prop :=
  out ≡ₚ l ∧
  StronglySorted (λ a b, in_order reverse (key a) (key b)) out ∧
  ∀ k, filter (λ p, key p = k) out = filter (λ p, key p = k) l.

(** The sort key the specification names: the lowered text of the field. *)
Definition key_of (sort_field : string) (p : post) : string :=
  Text.lower (field_text p sort_field).

(** [sort] is present: given and not empty. *)
Definition sort_present (args : query) : bool :=
  match sort args with
  | Some f => Text.nonempty f
  | None => false
  end.

(** [direction], with its default, is one of the two valid values. *)
Definition direction_valid (args : query) : bool :=
  let d := default "asc" (direction args) in
  String.eqb d "asc" || String.eqb d "desc".

(** What the specification says GET returns for [args] on [s]: the posts
    the trimmed query occurs in, then sorted when [sort] names a field. *)
Definition listing_of (args : query) (s out : list post) : Prop :=
  let q := Text.strip (default EmptyString (search args)) in
  ∃ found,
    filtered_by (search_hit q) s found ∧
    (q = EmptyString → found = s) ∧
    match sort args with
    | Some f =>
        if decide (f = "title" ∨ f = "content")
        then stable_sort_of (key_of f)
               (bool_decide (default "asc" (direction args) = "desc")) found out
        else out = found
    | None => out = found
    end.

(** The [missing_fields] entry of an error body. *)
Definition missing_fields_of (r : response) : option json :=
  match body r with
  | Jsonify (JObj d) => d !! "missing_fields"
  | _ => None
  end.

(** The fields among [title], [content] that a body lacks, in that order. *)
Definition absent_fields (d : post) : list string :=
  filter (λ k, d !! k = None) ["title"; "content"].

(** A result that is not an exception. *)
Definition is_ok {A} (r : result A) : Prop := ∃ a, r = Ok a.

(** The responses of the error paths and of a deletion. *)
Definition direction_error : response :=
  Response 400 (Jsonify (JObj {[ "error" := JStr invalid_direction_error ]})).

Definition no_data_error : response :=
  Response 400 (Jsonify (JObj {[ "error" := JStr "Keine Daten gesendet" ]})).

Definition missing_fields_error (missing : list string) : response :=
  Response 400 (Jsonify (JObj
    {[ "error" := JStr "Fehlende Pflichtfelder";
       "missing_fields" := JArr (JStr <$> missing) ]})).

Definition deleted (post_id : N) : response :=
  Response 200 (Jsonify (JObj
    {[ "message" := JStr (deleted_message post_id) ]})).

(** What the merge loop leaves in the post: the items are written one by
    one, the key "id" skipped. *)
Definition merged (p : post) (items : list (string * json)) : post :=
  foldl (λ acc kv, if negb (String.eqb kv.1 "id")
                   then <[kv.1 := kv.2]> acc else acc) p items.

(** An element paired with its sort key. *)
Definition tag {A} (key : A → string) (a : A) : string * A := (key a, a).

(** The status of a response and the ids it lists, in order (none when the
    body is not a list). *)
Definition listed (r : response * list post) : nat * list Z :=
  match body r.1 with
  | Jsonify (JArr l) =>
      (status r.1,
       omap (λ j, match j with JObj d => id_of d | _ => None end) l)
  | _ => (status r.1, [])
  end.

(** The seed with one more post, whose title is the number 5: what
    [POST {"title": 5, "content": "c"}] leaves behind. *)
Definition with_numeric_title : list post :=
  (handle (POST (JObj {[ "title" := JInt 5; "content" := JStr "c" ]})) POSTS).2.

(* ===================================================================== *)
(** ** Vocabulary of the further properties *)
(* ===================================================================== *)

(** The ids are ints, strictly ascending along the list, and at least 1. *)
Definition ascending_ids (s : list post) : Prop :=
  int_ids s ∧ StronglySorted Z.lt (ids s) ∧ Forall (λ z, (1 ≤ z)%Z) (ids s).

(** Every post has the keys "id", "title" and "content". *)
Definition has_fields (s : list post) : Prop :=
  Forall (λ p, is_Some (p !! "id") ∧ is_Some (p !! "title") ∧
               is_Some (p !! "content")) s.

(** A body whose title and content, where it has them, are text. *)
Definition text_body (b : json) : Prop :=
  match b with
  | JObj d => is_text (d !! "title") ∧ is_text (d !! "content")
  | _ => True
  end.

(** A request that brings no title or content other than text. *)
Definition text_request (r : request) : Prop :=
  match r with
  | POST b | PUT _ b => text_body b
  | GET _ | DELETE _ => True
  end.

(** The lists the service reaches when every request is a [text_request]. *)
Inductive text_reachable : list post → Prop :=
  | text_reachable_seed : text_reachable POSTS
  | text_reachable_step s r :
      text_reachable s → text_request r → text_reachable (handle r s).2.

(** Where the condition of the comprehension raises: the title is not
    text, or the title does not match and the content is not text. *)
Definition raises_at (q : string) (p : post) : Prop :=
  ¬ is_text (p !! "title") ∨
  (¬ occurs_in q (field_text p "title") ∧ ¬ is_text (p !! "content")).

(** A text that neither begins nor ends with whitespace. *)
Definition trimmed (t : string) : Prop :=
  (∀ c t', t = String c t' → Text.is_space c = false) ∧
  (∀ t' c, t = t' +:+ String c EmptyString → Text.is_space c = false).

(** [sorted] on a list, by a key function. *)
Definition sort_by {A} (key : A → string) (reverse : bool) (l : list A)
  : list A :=
  snd <$> sorted (tag key <$> l) reverse.

(** The direction as [sorted] takes it. *)
Definition is_desc (direction : string) : bool := String.eqb direction "desc".

(* ===================================================================== *)
(** ** The model on concrete text *)
(* ===================================================================== *)

Example lower_ex : Text.lower "Flask Tutorial" = "flask tutorial"%string.
Proof. reflexivity. Qed.

Example strip_ex : Text.strip "  flask  " = "flask"%string.
Proof. reflexivity. Qed.

Example contains_ex :
  Text.contains "flask" "learn flask with me." = true ∧
  Text.contains " flask " "flask tutorial" = false ∧
  Text.contains EmptyString EmptyString = true.
Proof. by vm_compute. Qed.

(* ===================================================================== *)
(** ** Facts about text *)
(* ===================================================================== *)

Section text_facts.

Lemma append_nil (s : string) : EmptyString +:+ s = s.
Proof. reflexivity. Qed.

Lemma append_cons (c : ascii) (s t : string) :
  String c s +:+ t = String c (s +:+ t).
Proof. reflexivity. Qed.

Lemma prefix_spec (n h : string) :
  String.prefix n h = true ↔ ∃ suf, h = n +:+ suf.
Proof.
  revert h. induction n as [|a n IH]; intros h; simpl.
  - split; [intros _; by exists h | by destruct h].
  - destruct h as [|b h]; simpl.
    + split; [done | intros [suf Hs]; by rewrite append_cons in Hs].
    + destruct (ascii_dec a b) as [->|Hne].
      * rewrite IH. split; intros [suf Hs]; exists suf;
          rewrite append_cons in *; congruence.
      * split; [done | intros [suf Hs]; rewrite append_cons in Hs; congruence].
Qed.

(** [contains] is the substring relation. *)
Lemma contains_spec (n h : string) :
  Text.contains n h = true ↔ ∃ pre suf, h = pre +:+ n +:+ suf.
Proof.
  induction h as [|c h IH].
  - cbn [Text.contains]. rewrite orb_false_r, prefix_spec. split.
    + intros [suf Hs]. by exists EmptyString, suf.
    + intros [pre [suf Hs]]. destruct pre; [by exists suf | done].
  - cbn [Text.contains]. rewrite orb_true_iff, prefix_spec, IH. split.
    + intros [[suf Hs] | [pre [suf Hs]]].
      * by exists EmptyString, suf.
      * exists (String c pre), suf. by rewrite append_cons, Hs.
    + intros [pre [suf Hs]]. destruct pre as [|c' pre].
      * left. by exists suf.
      * right. exists pre, suf. rewrite append_cons in Hs. congruence.
Qed.

Lemma rstrip_idemp (s : string) : Text.rstrip (Text.rstrip s) = Text.rstrip s.
Proof.
  induction s as [|c s IH]; [done|]. simpl.
  destruct (Text.rstrip s) as [|a r] eqn:Hr.
  - destruct (Text.is_space c) eqn:Hc; simpl; [done | by rewrite Hc].
  - cbn [Text.rstrip]. cbn [Text.rstrip] in IH. by rewrite IH.
Qed.

Lemma rstrip_cons_nonspace (c : ascii) (s : string) :
  Text.is_space c = false →
  Text.rstrip (String c s) = String c (Text.rstrip s).
Proof. intros Hc. simpl. rewrite Hc. by destruct (Text.rstrip s). Qed.

Lemma lstrip_head (s : string) :
  Text.lstrip s = EmptyString ∨
  ∃ c t, Text.lstrip s = String c t ∧ Text.is_space c = false.
Proof.
  induction s as [|c s IH]; [by left|]. simpl.
  destruct (Text.is_space c) eqn:Hc; [done|]. right. by exists c, s.
Qed.

(** Stripping twice is stripping once. *)
Lemma strip_idemp (s : string) : Text.strip (Text.strip s) = Text.strip s.
Proof.
  unfold Text.strip.
  destruct (lstrip_head s) as [-> | (c & t & -> & Hc)]; [done|].
  rewrite rstrip_cons_nonspace by done. simpl. rewrite Hc.
  rewrite rstrip_cons_nonspace by done. by rewrite rstrip_idemp.
Qed.

(** A string of whitespace strips to the empty string. *)
Lemma strip_all_space (s : string) :
  Text.all_space s = true → Text.strip s = EmptyString.
Proof.
  unfold Text.strip. induction s as [|c s IH]; [done|]. simpl.
  intros [Hc Hs]%andb_true_iff. rewrite Hc. auto.
Qed.

(** What [lstrip] drops is a run of whitespace at the front. *)
Lemma lstrip_split (s : string) :
  ∃ pre, s = pre +:+ Text.lstrip s ∧ Text.all_space pre = true.
Proof.
  induction s as [|c s (pre & IH & Hpre)]; [by exists EmptyString|].
  simpl. destruct (Text.is_space c) eqn:Hc.
  - exists (String c pre). rewrite append_cons, <- IH. simpl. by rewrite Hc.
  - by exists EmptyString.
Qed.

(** What [rstrip] drops is a run of whitespace at the end. *)
Lemma rstrip_split (s : string) :
  ∃ suf, s = Text.rstrip s +:+ suf ∧ Text.all_space suf = true.
Proof.
  induction s as [|c s (suf & IH & Hsuf)]; [by exists EmptyString|].
  simpl. destruct (Text.rstrip s) as [|a r] eqn:Hr.
  - rewrite append_nil in IH. subst suf. destruct (Text.is_space c) eqn:Hc.
    + exists (String c s). rewrite append_nil. simpl. by rewrite Hc.
    + exists s. by rewrite append_cons, append_nil.
  - exists suf. by rewrite append_cons, <- IH.
Qed.

(** What [rstrip] leaves does not end with whitespace. *)
Lemma rstrip_last (s t : string) (c : ascii) :
  Text.rstrip s = t +:+ String c EmptyString → Text.is_space c = false.
Proof.
  revert t. induction s as [|a s IH]; intros t; simpl.
  { by destruct t. }
  destruct (Text.rstrip s) as [|b r] eqn:Hr.
  - destruct (Text.is_space a) eqn:Ha; [by destruct t|].
    destruct t as [|x t]; [by intros [= <-]|].
    rewrite append_cons. intros [= _ H]. by destruct t.
  - destruct t as [|x t]; [done|].
    rewrite append_cons. intros [= _ H]. by apply (IH t).
Qed.

(** [strip] cuts a run of whitespace off each end and leaves a text that
    neither begins nor ends with whitespace. *)
Lemma strip_spec (s : string) :
  (∃ pre suf, s = pre +:+ Text.strip s +:+ suf ∧
     Text.all_space pre = true ∧ Text.all_space suf = true) ∧
  trimmed (Text.strip s).
Proof.
  unfold Text.strip. split.
  - destruct (lstrip_split s) as (pre & Hs & Hpre).
    destruct (rstrip_split (Text.lstrip s)) as (suf & Hl & Hsuf).
    exists pre, suf. by rewrite <- Hl.
  - split.
    + intros c t Ht. destruct (lstrip_head s) as [Hs|(a & r & Hs & Ha)];
        rewrite Hs in Ht; [done|].
      rewrite rstrip_cons_nonspace in Ht by done. by injection Ht as <- _.
    + intros t c. apply rstrip_last.
Qed.

Lemma compare_refl (a : string) : String.compare a a = Eq.
Proof.
  induction a as [|c a IH]; [done|]. simpl.
  unfold Ascii.compare. by rewrite N.compare_refl.
Qed.

Lemma compare_lt_trans (a b c : string) :
  String.compare a b = Lt → String.compare b c = Lt → String.compare a c = Lt.
Proof.
  revert b c. induction a as [|x a IH]; intros [|y b] [|z c]; simpl; try done.
  unfold Ascii.compare.
  destruct (N.compare_spec (N_of_ascii x) (N_of_ascii y)) as [Hxy|Hxy|Hxy];
    destruct (N.compare_spec (N_of_ascii y) (N_of_ascii z)) as [Hyz|Hyz|Hyz];
    try done.
  - rewrite Hxy, Hyz, N.compare_refl. apply IH.
  - intros _ _. rewrite Hxy. by apply N.compare_lt_iff in Hyz as ->.
  - intros _ _. rewrite <- Hyz. by apply N.compare_lt_iff in Hxy as ->.
  - intros _ _. assert (N_of_ascii x < N_of_ascii z)%N as Hxz by lia.
    by apply N.compare_lt_iff in Hxz as ->.
Qed.

Lemma ltb_false_leb (a b : string) :
  String.ltb b a = false ↔ String.leb a b = true.
Proof.
  unfold String.ltb, String.leb. rewrite (String.compare_antisym b a).
  by destruct (String.compare a b).
Qed.

Lemma ltb_leb (a b : string) : String.ltb a b = true → String.leb a b = true.
Proof. unfold String.ltb, String.leb. by destruct (String.compare a b). Qed.

Lemma leb_trans (a b c : string) :
  String.leb a b = true → String.leb b c = true → String.leb a c = true.
Proof.
  unfold String.leb.
  destruct (String.compare a b) eqn:Hab; [| |done];
    destruct (String.compare b c) eqn:Hbc; try done; intros _ _.
  - apply String.compare_eq_iff in Hab as ->. by rewrite Hbc.
  - apply String.compare_eq_iff in Hab as ->. by rewrite Hbc.
  - apply String.compare_eq_iff in Hbc as <-. by rewrite Hab.
  - by rewrite (compare_lt_trans a b c).
Qed.

End text_facts.

(* ===================================================================== *)
(** ** Facts about [sorted] *)
(* ===================================================================== *)

Section sorted_facts.
Context {A : Type}.
Implicit Types (x y : string * A) (l : list (string * A)) (reverse : bool).

Lemma goes_before_in_order reverse (a b : string) :
  goes_before reverse a b = true → in_order reverse a b.
Proof. destruct reverse; simpl; apply ltb_leb. Qed.

Lemma goes_before_false reverse (a b : string) :
  goes_before reverse a b = false → in_order reverse b a.
Proof. destruct reverse; simpl; apply ltb_false_leb. Qed.

Lemma goes_before_irrefl reverse (a : string) : goes_before reverse a a = false.
Proof.
  destruct reverse; simpl; unfold Text.lt, String.ltb; by rewrite compare_refl.
Qed.

Lemma in_order_trans reverse (a b c : string) :
  in_order reverse a b → in_order reverse b c → in_order reverse a c.
Proof. destruct reverse; simpl; eauto using leb_trans. Qed.

Lemma insert_sorted_perm reverse x l : insert_sorted reverse x l ≡ₚ x :: l.
Proof.
  induction l as [|y l IH]; simpl; [done|].
  destruct (goes_before reverse y.1 x.1); [|done].
  rewrite IH. apply Permutation_swap.
Qed.

Lemma sorted_perm reverse l : sorted l reverse ≡ₚ l.
Proof.
  induction l as [|x l IH]; simpl; [done|].
  by rewrite insert_sorted_perm, IH.
Qed.

Lemma insert_sorted_sorted reverse x l :
  StronglySorted (λ a b, in_order reverse a.1 b.1) l →
  StronglySorted (λ a b, in_order reverse a.1 b.1) (insert_sorted reverse x l).
Proof.
  induction l as [|y l IH]; simpl; intros Hl.
  - repeat constructor.
  - apply StronglySorted_cons in Hl as [Hy Hl].
    destruct (goes_before reverse y.1 x.1) eqn:Hyx.
    + apply StronglySorted_cons. split; [|by apply IH].
      rewrite insert_sorted_perm. constructor; [|done].
      by apply goes_before_in_order.
    + apply goes_before_false in Hyx.
      apply StronglySorted_cons. split.
      * constructor; [done|]. eapply Forall_impl; [exact Hy|].
        intros z Hz. simpl in Hz. eauto using in_order_trans.
      * by apply StronglySorted_cons.
Qed.

Lemma sorted_sorted reverse l :
  StronglySorted (λ a b, in_order reverse a.1 b.1) (sorted l reverse).
Proof.
  induction l as [|x l IH]; simpl; [constructor|].
  by apply insert_sorted_sorted.
Qed.

(** Stability: among the elements of one key nothing moves. *)
Lemma insert_sorted_stable reverse (k : string) x l :
  filter (λ z, z.1 = k) (insert_sorted reverse x l) =
  filter (λ z, z.1 = k) (x :: l).
Proof.
  induction l as [|y l IH]; simpl; [done|].
  destruct (goes_before reverse y.1 x.1) eqn:Hyx; [|done].
  assert (y.1 ≠ x.1) as Hne.
  { intros Heq. rewrite Heq, goes_before_irrefl in Hyx. done. }
  rewrite (filter_cons _ y), IH, !filter_cons.
  repeat case_decide; congruence.
Qed.

Lemma sorted_stable reverse (k : string) l :
  filter (λ z, z.1 = k) (sorted l reverse) = filter (λ z, z.1 = k) l.
Proof.
  induction l as [|x l IH]; simpl; [done|].
  by rewrite insert_sorted_stable, !filter_cons, IH.
Qed.

(** Sorting a list tagged with the keys of its elements *)
Context (key : A → string).

Lemma tagged_untag l :
  Forall (λ x, x.1 = key x.2) l → l = tag key <$> (snd <$> l).
Proof.
  induction 1 as [|[k a] l Hx _ IH]; [done|].
  rewrite !fmap_cons. f_equal; [|done]. unfold tag. simpl in *. by rewrite Hx.
Qed.

Lemma sorted_tagged reverse (l : list A) :
  sorted (tag key <$> l) reverse = tag key <$> (snd <$> sorted (tag key <$> l) reverse).
Proof.
  apply tagged_untag. rewrite sorted_perm. apply Forall_fmap.
  by apply Forall_true.
Qed.

Lemma StronglySorted_tag reverse (l : list A) :
  StronglySorted (λ a b, in_order reverse a.1 b.1) (tag key <$> l) →
  StronglySorted (λ a b, in_order reverse (key a) (key b)) l.
Proof.
  induction l as [|a l IH]; [constructor|].
  rewrite fmap_cons, !StronglySorted_cons, Forall_fmap. intros [Ha Hl]. auto.
Qed.

Lemma filter_tag (k : string) (l : list A) :
  filter (λ z, z.1 = k) (tag key <$> l) = tag key <$> filter (λ a, key a = k) l.
Proof.
  induction l as [|a l IH]; [done|].
  rewrite fmap_cons, !filter_cons, IH. simpl.
  destruct (decide (key a = k)); by rewrite ?fmap_cons.
Qed.

Lemma untag_tag (l : list A) : snd <$> (tag key <$> l) = l.
Proof. rewrite <- list_fmap_compose. apply list_fmap_id. Qed.

End sorted_facts.

(* ===================================================================== *)
(** ** Facts about ids, the lookup loop and the maximum *)
(* ===================================================================== *)

Section id_facts.
Implicit Types (p : post) (s l : list post) (n z : Z).

Lemma id_of_getitem p z : id_of p = Some z → Py.getitem p "id" = Ok (JInt z).
Proof.
  unfold id_of, Py.getitem. destruct (p !! "id") as [[]|]; naive_solver.
Qed.

Lemma id_of_post_id_int p z : id_of p = Some z → post_id_int p = Ok z.
Proof. intros H. unfold post_id_int. by rewrite (id_of_getitem p z H). Qed.

Lemma ids_cons p l z : id_of p = Some z → ids (p :: l) = z :: ids l.
Proof. intros H. unfold ids. simpl. by rewrite H. Qed.

Lemma ids_app l1 l2 : ids (l1 ++ l2) = ids l1 ++ ids l2.
Proof. apply omap_app. Qed.

Lemma int_ids_length s : int_ids s → length (ids s) = length s.
Proof.
  induction 1 as [|p l [z Hz] _ IH]; [done|].
  rewrite (ids_cons p l z Hz). simpl. by rewrite IH.
Qed.

(** The loop finds nothing when no post has the id. *)
Lemma find_post_absent s n i :
  int_ids s → n ∉ ids s → find_post s n i = Ok None.
Proof.
  intros Hs. revert i. induction Hs as [|p l [z Hz] _ IH]; intros i Hn; [done|].
  rewrite (ids_cons p l z Hz) in Hn. apply not_elem_of_cons in Hn as [Hne Hn].
  simpl. rewrite (id_of_getitem p z Hz). simpl.
  destruct (Z.eqb_spec z n); [congruence|]. by apply IH.
Qed.

(** The loop stops at the first post that has the id. *)
Lemma find_post_first l1 p l2 n i :
  int_ids l1 → n ∉ ids l1 → id_of p = Some n →
  find_post (l1 ++ p :: l2) n i = Ok (Some (i + length l1)).
Proof.
  intros Hl. revert i. induction Hl as [|q l [z Hz] _ IH]; intros i Hn Hp.
  - simpl. rewrite (id_of_getitem p n Hp). simpl.
    rewrite Z.eqb_refl. do 2 f_equal. lia.
  - rewrite (ids_cons q l z Hz) in Hn. apply not_elem_of_cons in Hn as [Hne Hn].
    simpl. rewrite (id_of_getitem q z Hz). simpl.
    destruct (Z.eqb_spec z n); [congruence|].
    rewrite IH by done. do 2 f_equal. lia.
Qed.

Lemma ids_cons_None p l : id_of p = None → ids (p :: l) = ids l.
Proof. intros H. unfold ids. simpl. by rewrite H. Qed.

(** A list holding the id splits at its first post with that id. *)
Lemma ids_split s n :
  n ∈ ids s →
  ∃ l1 p l2, s = l1 ++ p :: l2 ∧ (n ∉ ids l1) ∧ id_of p = Some n.
Proof.
  induction s as [|q l IH]; intros Hin.
  { by apply elem_of_nil in Hin. }
  destruct (id_of q) as [z|] eqn:Hq.
  - rewrite (ids_cons q l z Hq) in Hin.
    destruct (decide (z = n)) as [->|Hne].
    + exists [], q, l. split_and!; [done | apply not_elem_of_nil | done].
    + apply elem_of_cons in Hin as [?|Hin]; [congruence|].
      destruct (IH Hin) as (l1 & p & l2 & -> & Hn & Hp).
      exists (q :: l1), p, l2. split_and!; [done | | done].
      rewrite (ids_cons q l1 z Hq). by apply not_elem_of_cons.
  - rewrite (ids_cons_None q l Hq) in Hin.
    destruct (IH Hin) as (l1 & p & l2 & -> & Hn & Hp).
    exists (q :: l1), p, l2. split_and!; [done | | done].
    by rewrite (ids_cons_None q l1 Hq).
Qed.

Lemma max_from_spec l b :
  int_ids l →
  ∃ m, max_from b l = Ok m ∧ (m = b ∨ m ∈ ids l) ∧ (b ≤ m)%Z ∧
       ∀ z, z ∈ ids l → (z ≤ m)%Z.
Proof.
  intros Hl. revert b. induction Hl as [|p l [z Hz] _ IH]; intros b.
  - exists b. split_and!; [done | by left | done |].
    intros y Hy. by apply elem_of_nil in Hy.
  - rewrite (ids_cons p l z Hz).
    simpl. rewrite (id_of_post_id_int p z Hz). simpl.
    destruct (IH (if (b <? z)%Z then z else b)) as (m & -> & Hm & Hb & Hall).
    exists m.
    destruct (Z.ltb_spec b z).
    + split_and!; [done | | lia |].
      * right. destruct Hm as [->|?]; [by left | by right].
      * intros y [->|?]%elem_of_cons; [done | by apply Hall].
    + split_and!; [done | | done |].
      * destruct Hm as [->|?]; [by left | right; by right].
      * intros y [->|?]%elem_of_cons; [lia | by apply Hall].
Qed.

(** [max(..., default)] is the greatest id, or the default on the empty
    list. *)
Lemma max_id_spec s d :
  int_ids s →
  ∃ m, max_id s d = Ok m ∧
       ((s = [] ∧ m = d) ∨ (m ∈ ids s ∧ ∀ z, z ∈ ids s → (z ≤ m)%Z)).
Proof.
  intros Hs. destruct Hs as [|p l [z Hz] Hl].
  - exists d. split; [done | by left].
  - rewrite (ids_cons p l z Hz).
    simpl. rewrite (id_of_post_id_int p z Hz). simpl.
    destruct (max_from_spec l z Hl) as (m & -> & Hm & Hb & Hall).
    exists m. split; [done|]. right. split.
    + destruct Hm as [->|?]; [by left | by right].
    + intros y [->|?]%elem_of_cons; [done | by apply Hall].
Qed.

End id_facts.

(* ===================================================================== *)
(** ** Facts about [search_posts], [sort_posts] and [list_posts] *)
(* ===================================================================== *)

Section listing_facts.
Implicit Types (p : post) (s : list post) (q f d : string).

Lemma nonempty_false q : Text.nonempty q = false ↔ q = EmptyString.
Proof. by destruct q. Qed.

Lemma occurs_in_empty t : occurs_in EmptyString t.
Proof. exists EmptyString, (Text.lower t). done. Qed.

Lemma filtered_by_all {A} (P : A → Prop) (l : list A) :
  Forall P l → filtered_by P l l.
Proof. induction 1; by constructor. Qed.

Lemma filtered_by_Forall {A} (P Q : A → Prop) (l out : list A) :
  filtered_by P l out → Forall Q l → Forall Q out.
Proof.
  induction 1 as [|x l out _ _ IH|x l out _ _ IH];
    intros Hl; [done | |]; apply Forall_cons in Hl as [Hx Hl]; auto.
Qed.

(** The relation determines its result. *)
Lemma filtered_by_unique {A} (P : A → Prop) (l out1 out2 : list A) :
  filtered_by P l out1 → filtered_by P l out2 → out1 = out2.
Proof.
  intros H1. revert out2.
  induction H1 as [|x l out Hx _ IH|x l out Hx _ IH]; intros out2 H2;
    inversion H2; subst; try done; f_equal; auto.
Qed.

Lemma filtered_by_search_empty s : filtered_by (search_hit EmptyString) s s.
Proof.
  apply filtered_by_all, Forall_forall. intros p _. left. apply occurs_in_empty.
Qed.

Lemma search_hit_contains q p :
  search_hit q p ↔
  Text.contains (Text.lower q) (Text.lower (field_text p "title")) ||
  Text.contains (Text.lower q) (Text.lower (field_text p "content")) = true.
Proof.
  unfold search_hit, occurs_in. by rewrite orb_true_iff, !contains_spec.
Qed.

Lemma get_lower_text p k :
  is_text (p !! k) →
  Py.lower (Py.get p k (JStr EmptyString)) = Ok (Text.lower (field_text p k)).
Proof.
  unfold Py.get, field_text. by destruct (p !! k) as [[]|].
Qed.

Lemma post_matches_text q p :
  is_text (p !! "title") → is_text (p !! "content") →
  ∃ keep, post_matches (Text.lower q) p = Ok keep ∧
          (keep = true ↔ search_hit q p).
Proof.
  intros Ht Hc. unfold post_matches.
  rewrite (get_lower_text p "title" Ht), (get_lower_text p "content" Hc).
  simpl. setoid_rewrite search_hit_contains.
  destruct (Text.contains (Text.lower q) (Text.lower (field_text p "title")));
    simpl; by eexists.
Qed.

Lemma comprehension_text s q :
  text_fields s →
  ∃ found, comprehension (Text.lower q) s = Ok found ∧
           filtered_by (search_hit q) s found.
Proof.
  induction 1 as [|p l [Ht Hc] _ (found & IH & Hfound)].
  - exists []. split; [done | constructor].
  - destruct (post_matches_text q p Ht Hc) as (keep & Hkeep & Hhit).
    simpl. rewrite Hkeep, IH. simpl. destruct keep.
    + exists (p :: found). split; [done|]. constructor; [by apply Hhit | done].
    + exists found. split; [done|]. constructor; [|done].
      intros Hp%Hhit. done.
Qed.

(** On text fields the comprehension is the filter of the specification. *)
Lemma search_posts_text s q :
  text_fields s →
  ∃ found, search_posts s q = Ok found ∧
           filtered_by (search_hit q) s found ∧
           (q = EmptyString → found = s).
Proof.
  intros Hs. unfold search_posts.
  destruct (Text.nonempty q) eqn:Hq; simpl.
  - destruct (comprehension_text s q Hs) as (found & -> & Hfound).
    exists found. split_and!; [done | done |]. by intros ->.
  - apply nonempty_false in Hq as ->. exists s.
    split_and!; [done | apply filtered_by_search_empty | done].
Qed.

Lemma search_posts_empty s : search_posts s EmptyString = Ok s.
Proof. done. Qed.

Lemma sort_posts_other s f d :
  f ≠ "title" → f ≠ "content" → sort_posts s f d = Ok s.
Proof.
  intros H1 H2. unfold sort_posts.
  destruct (String.eqb_spec f "title"), (String.eqb_spec f "content"); done.
Qed.

Lemma keyed_text s f :
  text_fields s → f = "title" ∨ f = "content" →
  mapM (λ p, k ← sort_key f p; Ok (k, p)) s = Ok (tag (key_of f) <$> s).
Proof.
  intros Hs Hf. induction Hs as [|p l [Ht Hc] _ IH]; [done|].
  simpl. rewrite IH. unfold sort_key.
  rewrite (get_lower_text p f) by (by destruct Hf as [->| ->]). done.
Qed.

(** On text fields [sort_posts] is the stable sort of the specification. *)
Lemma sort_posts_text s f d :
  text_fields s → f = "title" ∨ f = "content" →
  ∃ out, sort_posts s f d = Ok out ∧
         stable_sort_of (key_of f) (bool_decide (d = "desc")) s out.
Proof.
  intros Hs Hf. unfold sort_posts.
  replace (negb (String.eqb f "title" || String.eqb f "content")) with false
    by (by destruct Hf as [->| ->]).
  rewrite (keyed_text s f Hs Hf). simpl.
  replace (String.eqb d "desc") with (bool_decide (d = "desc"))
    by (by destruct (String.eqb_spec d "desc");
          [rewrite bool_decide_eq_true_2 | rewrite bool_decide_eq_false_2]).
  set (reverse := bool_decide (d = "desc")).
  eexists. split; [done|]. split_and!.
  - rewrite sorted_perm. by rewrite untag_tag.
  - apply StronglySorted_tag. rewrite <- sorted_tagged. apply sorted_sorted.
  - intros k.
    pose proof (sorted_stable reverse k (tag (key_of f) <$> s)) as Hst.
    rewrite (sorted_tagged (key_of f)), !filter_tag in Hst.
    apply (f_equal (fmap snd)) in Hst. by rewrite !untag_tag in Hst.
Qed.

(** GET leaves the list as it found it. *)
Lemma list_posts_state args s : (list_posts args s).2 = s.
Proof.
  unfold list_posts, try_except, list_posts_try.
  unfold mbind, handler_bind, Store.read, Store.lift, mret, handler_ret.
  destruct (search_posts s _) as [l|e]; [|done].
  destruct (sort args) as [f|]; [|done].
  destruct (Text.nonempty f); [|done].
  destruct (negb _); [done|].
  by destruct (sort_posts l f _).
Qed.

Lemma is_text_or_not (o : option json) : is_text o ∨ ¬ is_text o.
Proof. destruct o as [[]|]; simpl; tauto. Qed.

(** The condition of the comprehension raises at a post exactly where
    [raises_at] says, and then with [AttributeError]. *)
Lemma post_matches_raises q p :
  (raises_at q p ∧ post_matches (Text.lower q) p = Raise AttributeError) ∨
  (¬ raises_at q p ∧ ∃ keep, post_matches (Text.lower q) p = Ok keep).
Proof.
  destruct (is_text_or_not (p !! "title")) as [Ht|Ht].
  2:{ left. split; [by left|]. unfold post_matches, Py.get.
      by destruct (p !! "title") as [[]|]. }
  unfold post_matches. rewrite (get_lower_text p "title" Ht). simpl.
  destruct (Text.contains (Text.lower q) (Text.lower (field_text p "title")))
    eqn:Hc.
  { right. split; [|by eexists]. intros [H|[H _]]; [done|].
    apply H. by apply contains_spec. }
  assert (¬ occurs_in q (field_text p "title")) as Hno.
  { intros H%contains_spec. congruence. }
  destruct (is_text_or_not (p !! "content")) as [Hx|Hx].
  - right. rewrite (get_lower_text p "content" Hx). simpl.
    split; [|by eexists]. intros [H|[_ H]]; done.
  - left. split; [by right|]. unfold Py.get.
    by destruct (p !! "content") as [[]|].
Qed.

(** [search_posts] raises exactly where [raises_at] says. *)
Lemma search_raises_iff s q e :
  search_posts s q = Raise e ↔
  e = AttributeError ∧ q ≠ EmptyString ∧ Exists (raises_at q) s.
Proof.
  unfold search_posts. destruct (Text.nonempty q) eqn:Hq; simpl.
  2:{ apply nonempty_false in Hq as ->. split; [done | by intros (_ & ? & _)]. }
  assert (q ≠ EmptyString) as Hne by (by intros ->).
  induction s as [|p s IH]; simpl.
  { split; [done|]. intros (_ & _ & H). by apply Exists_nil in H. }
  rewrite Exists_cons.
  destruct (post_matches_raises q p) as [[Hr ->]|[Hr [keep ->]]]; simpl.
  - split; [intros [= <-]; by auto | by intros [-> _]].
  - destruct (comprehension (Text.lower q) s) as [rest|e']; simpl.
    + split; [done|]. intros (He & _ & [?|Hex]); [done|].
      by pose proof (proj2 IH (conj He (conj Hne Hex))).
    + split.
      * intros [= <-]. destruct (proj1 IH eq_refl) as (-> & _ & Hex). by auto.
      * intros (He & _ & [?|Hex]); [done|].
        apply (proj2 IH). by split_and!.
Qed.

Lemma not_ok_iff_raises {A} (r : result A) : ¬ is_ok r ↔ ∃ e, r = Raise e.
Proof.
  destruct r as [a|e]; split.
  - intros H. destruct H. by exists a.
  - by intros [e ?].
  - intros _. by exists e.
  - intros _ [a ?]. done.
Qed.

End listing_facts.

Section list_posts_facts.
Implicit Types (s : list post) (args : query).

(** [list_posts] by cases: the search, then the direction check, then the
    sort. *)
Lemma list_posts_cases args s :
  list_posts args s =
  (match search_posts s (Text.strip (default EmptyString (search args))) with
   | Raise e => Response 500 (ServerError e)
   | Ok l =>
       if sort_present args then
         if direction_valid args then
           match sort_posts l (default EmptyString (sort args))
                   (default "asc" (direction args)) with
           | Ok out => Response 200 (Jsonify (json_of_posts out))
           | Raise e => Response 500 (ServerError e)
           end
         else direction_error
       else Response 200 (Jsonify (json_of_posts l))
   end, s).
Proof.
  unfold list_posts, try_except, list_posts_try, sort_present, direction_valid.
  unfold mbind, handler_bind, Store.read, Store.lift, mret, handler_ret.
  destruct (search_posts s _) as [l|e]; [|done].
  destruct (sort args) as [f|]; [|done]. simpl.
  destruct (Text.nonempty f); [|done].
  destruct (_ || _); simpl; [|done].
  by destruct (sort_posts l f _).
Qed.

Lemma list_posts_no_params s :
  list_posts no_params s = (Response 200 (Jsonify (json_of_posts s)), s).
Proof. by rewrite list_posts_cases. Qed.

End list_posts_facts.

Lemma with_numeric_title_reachable : reachable with_numeric_title.
Proof. apply reachable_step, reachable_seed. Qed.

(** C4, as stated, fails: with [sort=title] and [direction=bogus] the
    response is not 400 when the search step raises first. On the seed plus
    a post whose title is a number, [?search=x&sort=title&direction=bogus]
    is answered 500, and so is [?search=x&direction=bogus] without sort,
    where the specification promises 200. *)
Lemma list_posts_400_iff_counterexample :
  let args := Query (Some "x") (Some "title") (Some "bogus") in
  reachable with_numeric_title ∧
  ¬ (status (list_posts args with_numeric_title).1 = 400 ↔
     sort_present args = true ∧ direction_valid args = false) ∧
  status (list_posts (Query (Some "x") None (Some "bogus"))
            with_numeric_title).1 ≠ 200.
Proof.
  assert (status (list_posts (Query (Some "x") (Some "title") (Some "bogus"))
            with_numeric_title).1 = 500) as H1 by (vm_compute; reflexivity).
  assert (status (list_posts (Query (Some "x") None (Some "bogus"))
            with_numeric_title).1 = 500) as H2 by (vm_compute; reflexivity).
  cbv zeta. rewrite H1, H2.
  split_and!; [apply with_numeric_title_reachable | | done].
  intros [_ H]. by specialize (H (conj eq_refl eq_refl)).
Qed.

(** C4 (amended): GET answers 400 exactly when [sort] is present
    (non-empty), [direction] is neither "asc" nor "desc", and the search
    step did not raise; when [sort] is absent and the search step did not
    raise, every [direction] is answered 200; the search step does not raise
    when the stored titles and contents are text, nor when the trimmed query
    is empty; an omitted [direction] is "asc". The search step raises
    exactly when the trimmed query is not empty and some post has a title
    that is not text, or a title the query does not occur in together with a
    content that is not text; the response is then 500, whatever [sort] and
    [direction] are. *)
Theorem list_posts_400_iff (args : query) (s : list post) :
  let q := Text.strip (default EmptyString (search args)) in
  let r := (list_posts args s).1 in
  (status r = 400 ↔
     sort_present args = true ∧ direction_valid args = false ∧
     is_ok (search_posts s q)) ∧
  (sort_present args = false → is_ok (search_posts s q) → status r = 200) ∧
  (text_fields s ∨ q = EmptyString → is_ok (search_posts s q)) ∧
  list_posts (Query (search args) (sort args) None) s =
    list_posts (Query (search args) (sort args) (Some "asc")) s ∧
  (¬ is_ok (search_posts s q) ↔ q ≠ EmptyString ∧ Exists (raises_at q) s) ∧
  (¬ is_ok (search_posts s q) → r = Response 500 (ServerError AttributeError)).
Proof.
  cbv zeta. rewrite list_posts_cases. cbn [fst]. split_and!.
  - destruct (search_posts s _) as [l|e] eqn:Hq; simpl.
    + destruct (sort_present args), (direction_valid args); simpl;
        try destruct (sort_posts l _ _); simpl;
        (split; [intros ? | intros (? & ? & ?)]); try done.
      split_and!; [done | done | by exists l].
    + split; [done|]. intros (_ & _ & l & ?). done.
  - intros -> [l ->]. done.
  - intros [Hs| ->].
    + destruct (search_posts_text s
        (Text.strip (default EmptyString (search args))) Hs) as (found & -> & _).
      by eexists.
    + rewrite search_posts_empty. by eexists.
  - done.
  - rewrite not_ok_iff_raises. split.
    + intros [e He]. by apply search_raises_iff in He as (_ & ? & ?).
    + intros [Hq Hex]. exists AttributeError. by apply search_raises_iff.
  - intros [e He]%not_ok_iff_raises. rewrite He.
    by apply search_raises_iff in He as (-> & _).
Qed.

Lemma POSTS_text_fields : text_fields POSTS.
Proof. repeat constructor. Qed.

(** C5, as stated, fails: not every GET is answered 200 with the filtered
    (and sorted) sequence. On the seed plus a post whose title is a number,
    [?search=x] is answered 500 (the title has no [lower]); and on the seed,
    [?sort=id&direction=bogus] is answered 400, the unrecognised sort field
    not being ignored by the direction check. *)
Lemma list_posts_listing_counterexample :
  reachable with_numeric_title ∧
  (¬ ∃ out, (list_posts (Query (Some "x") None None) with_numeric_title).1 =
            Response 200 (Jsonify (json_of_posts out))) ∧
  (¬ ∃ out, (list_posts (Query None (Some "id") (Some "bogus")) POSTS).1 =
            Response 200 (Jsonify (json_of_posts out))).
Proof.
  assert (status (list_posts (Query (Some "x") None None)
            with_numeric_title).1 = 500) as H1 by (vm_compute; reflexivity).
  assert (status (list_posts (Query None (Some "id") (Some "bogus"))
            POSTS).1 = 400) as H2 by (vm_compute; reflexivity).
  split_and!; [apply with_numeric_title_reachable | |];
    intros [out Hout]; apply (f_equal status) in Hout.
  - rewrite H1 in Hout. discriminate Hout.
  - rewrite H2 in Hout. discriminate Hout.
Qed.

(** C5 (amended): for every GET that passes the direction check ([sort]
    absent or empty, or [direction] "asc" or "desc"), on a collection whose
    titles and contents are text, the response is 200 and carries the
    collection filtered by the trimmed search query (case-insensitive
    substring of title or content, a missing field being empty; an empty
    query keeps every post) and then, only if [sort] is "title" or
    "content", stably sorted by the lowered text of that field, descending
    when [direction] is "desc"; any other [sort] leaves the filtered
    sequence as it is. *)
Theorem list_posts_listing (args : query) (s : list post) :
  text_fields s →
  (sort_present args = true → direction_valid args = true) →
  ∃ out,
    list_posts args s = (Response 200 (Jsonify (json_of_posts out)), s) ∧
    listing_of args s out.
Proof.
  intros Hs Hdir. rewrite list_posts_cases. unfold listing_of.
  set (q := Text.strip (default EmptyString (search args))).
  destruct (search_posts_text s q Hs) as (found & -> & Hfound & Hq).
  pose proof (filtered_by_Forall _ _ _ _ Hfound Hs) as Hf.
  unfold sort_present in *. destruct (sort args) as [f|]; [|by eauto 6].
  destruct (Text.nonempty f) eqn:Hne.
  - rewrite Hdir by done. simpl.
    destruct (decide (f = "title" ∨ f = "content")) as [Hrec|Hrec].
    + destruct (sort_posts_text _ f (default "asc" (direction args)) Hf Hrec)
        as (out & -> & Hout).
      exists out. split; [done|]. by exists found.
    + rewrite sort_posts_other by naive_solver.
      exists found. split; [done|]. by exists found.
  - apply nonempty_false in Hne as ->.
    destruct (decide (EmptyString = "title" ∨ EmptyString = "content"))
      as [[?|?]|_]; [done | done |].
    exists found. split; [done|]. by exists found.
Qed.

(** C5 (amended) on the seed: [?search=%20Flask&sort=title&direction=desc]. *)
Lemma list_posts_listing_witness :
  ∃ out,
    list_posts (Query (Some " Flask") (Some "title") (Some "desc")) POSTS =
      (Response 200 (Jsonify (json_of_posts out)), POSTS) ∧
    listing_of (Query (Some " Flask") (Some "title") (Some "desc")) POSTS out.
Proof.
  apply (list_posts_listing
           (Query (Some " Flask") (Some "title") (Some "desc")) POSTS).
  - exact POSTS_text_fields.
  - reflexivity.
Defined.

(** C9: GET never modifies the collection: for every combination of
    search, sort and direction, also when the request is rejected or an
    exception is caught, the stored list after the request is the list
    before it. *)
Theorem list_posts_leaves_collection (args : query) (s : list post) :
  (handle (GET args) s).2 = s ∧
  (∀ q l, search_posts s q = Ok l → l `sublist_of` s) ∧
  (∀ f d l, sort_posts s f d = Ok l → l ≡ₚ s).
Proof.
  split_and!.
  - apply list_posts_state.
  - intros q l. unfold search_posts. destruct (negb _); [naive_solver|].
    revert l. generalize (Text.lower q). intros ql.
    induction s as [|p s' IH]; intros l; simpl; [naive_solver|].
    destruct (post_matches ql p) as [keep|]; [|done]; simpl.
    destruct (comprehension ql s') as [rest|]; [|done]; simpl.
    intros [= <-]. specialize (IH rest eq_refl).
    destruct keep; by constructor.
  - intros f d l. unfold sort_posts. destruct (negb _); [naive_solver|].
    destruct (mapM _ s) as [keyed|] eqn:Hk; [|done]; simpl.
    intros [= <-]. rewrite sorted_perm.
    revert keyed Hk. induction s as [|p s' IH]; intros keyed; simpl.
    { by intros [= <-]. }
    destruct (sort_key f p) as [k|]; [|done]; simpl.
    destruct (mapM _ s') as [keyed'|]; [|done]; simpl.
    intros [= <-]. simpl. by rewrite (IH keyed' eq_refl).
Qed.

(** C10: the search query is stripped of leading and trailing whitespace
    before matching: what is matched is the query without a run of
    whitespace at its front and one at its end, a text that neither begins
    nor ends with whitespace; a request with query [q] is answered as the
    request with the trimmed [q]; a query of whitespace only is answered as
    no query (the full collection when there is no sort); on text fields the
    posts returned are those the trimmed query occurs in; and on the seed
    the queries " hello ", " hello" and "world " each return the post with
    id 1, though none of them occurs in a title or content as it is. *)
Theorem search_query_is_stripped
    (q : string) (srt dir : option string) (s : list post) :
  list_posts (Query (Some q) srt dir) s =
    list_posts (Query (Some (Text.strip q)) srt dir) s ∧
  (Text.all_space q = true →
     list_posts (Query (Some q) srt dir) s = list_posts (Query None srt dir) s ∧
     list_posts (Query (Some q) None dir) s =
       (Response 200 (Jsonify (json_of_posts s)), s)) ∧
  (text_fields s →
     ∃ found,
       filtered_by (search_hit (Text.strip q)) s found ∧
       list_posts (Query (Some q) None dir) s =
         (Response 200 (Jsonify (json_of_posts found)), s)) ∧
  (∃ found,
     (list_posts (Query (Some " hello ") None None) POSTS).1 =
       Response 200 (Jsonify (json_of_posts found)) ∧
     filtered_by (search_hit "hello") POSTS found ∧
     ids found = [1%Z] ∧
     filtered_by (search_hit " hello ") POSTS []) ∧
  (∃ pre suf, q = pre +:+ Text.strip q +:+ suf ∧
     Text.all_space pre = true ∧ Text.all_space suf = true) ∧
  trimmed (Text.strip q) ∧
  (∃ found,
     (list_posts (Query (Some " hello") None None) POSTS).1 =
       Response 200 (Jsonify (json_of_posts found)) ∧
     ids found = [1%Z] ∧
     filtered_by (search_hit " hello") POSTS []) ∧
  (∃ found,
     (list_posts (Query (Some "world ") None None) POSTS).1 =
       Response 200 (Jsonify (json_of_posts found)) ∧
     ids found = [1%Z] ∧
     filtered_by (search_hit "world ") POSTS []).
Proof.
  pose proof (strip_spec q) as [Hsplit Htrim].
  assert (∀ raw, ∃ found,
            search_posts POSTS (Text.strip raw) = Ok found ∧
            (list_posts (Query (Some raw) None None) POSTS).1 =
              Response 200 (Jsonify (json_of_posts found)) ∧
            filtered_by (search_hit (Text.strip raw)) POSTS found) as Hseed.
  { intros raw. rewrite list_posts_cases.
    cbn -[Text.strip search_posts sort_posts POSTS].
    destruct (search_posts_text POSTS (Text.strip raw) POSTS_text_fields)
      as (found & Hsearch & Hfound & _).
    rewrite Hsearch. by exists found. }
  assert (∀ raw (l : list post), Forall (λ p,
            Text.contains (Text.lower raw) (Text.lower (field_text p "title")) ||
            Text.contains (Text.lower raw) (Text.lower (field_text p "content"))
            = false) l →
          filtered_by (search_hit raw) l []) as Hnone.
  { intros raw l Hall. induction Hall as [|p l Hp _ IH]; constructor; [|done].
    rewrite search_hit_contains. by rewrite Hp. }
  split_and!.
  - rewrite !list_posts_cases. cbn -[Text.strip search_posts sort_posts].
    by rewrite strip_idemp.
  - intros Hq. rewrite !list_posts_cases.
    cbn -[Text.strip search_posts sort_posts].
    rewrite (strip_all_space q Hq). by rewrite search_posts_empty.
  - intros Hs. rewrite list_posts_cases.
    cbn -[Text.strip search_posts sort_posts].
    destruct (search_posts_text s (Text.strip q) Hs) as (found & -> & Hfound & _).
    by exists found.
  - destruct (Hseed " hello ") as (found & Hsearch & Hget & Hfound).
    exists found. split_and!; [done | done | |].
    + vm_compute in Hsearch. injection Hsearch as <-. by vm_compute.
    + apply Hnone. repeat constructor.
  - done.
  - done.
  - destruct (Hseed " hello") as (found & Hsearch & Hget & _).
    exists found. split_and!; [done | |].
    + vm_compute in Hsearch. injection Hsearch as <-. by vm_compute.
    + apply Hnone. repeat constructor.
  - destruct (Hseed "world ") as (found & Hsearch & Hget & _).
    exists found. split_and!; [done | |].
    + vm_compute in Hsearch. injection Hsearch as <-. by vm_compute.
    + apply Hnone. repeat constructor.
Qed.

(* ===================================================================== *)
(** ** Facts about [add_post] *)
(* ===================================================================== *)

Section add_post_facts.
Implicit Types (d : post) (s : list post) (b : json).

Lemma next_id_of_max s m :
  (s = [] ∧ m = 0%Z) ∨ (m ∈ ids s ∧ ∀ z, z ∈ ids s → (z ≤ m)%Z) →
  is_next_id s (m + 1).
Proof.
  intros [[-> ->]|[Hin Hmax]]; [by left | right].
  by replace (m + 1 - 1)%Z with m by lia.
Qed.

(** The fields the handler reports are the absent ones. *)
Lemma missing_of_absent d :
  missing_of (bool_decide (is_Some (d !! "title")))
             (bool_decide (is_Some (d !! "content"))) = absent_fields d.
Proof.
  unfold absent_fields, missing_of. rewrite !filter_cons, filter_nil.
  destruct (d !! "title") as [t|], (d !! "content") as [c|];
    repeat case_bool_decide; repeat case_decide;
    try done; exfalso; naive_solver eauto using mk_is_Some, is_Some_None.
Qed.

Lemma truthy_obj d : Py.truthy (JObj d) = true ↔ d ≠ ∅.
Proof.
  simpl. rewrite negb_true_iff, bool_decide_eq_false. done.
Qed.

(** An empty object is answered as no data. *)
Lemma add_post_empty s : add_post (JObj ∅) s = (no_data_error, s).
Proof. done. Qed.

(** A non-empty object that lacks a field is answered with the list of the
    fields it lacks. *)
Lemma add_post_missing d s :
  d ≠ ∅ → absent_fields d ≠ [] →
  add_post (JObj d) s = (missing_fields_error (absent_fields d), s).
Proof.
  intros Hd%truthy_obj Habs. unfold add_post, try_except, add_post_try.
  rewrite Hd. simpl.
  unfold mbind, handler_bind, Store.lift, mret, handler_ret. simpl.
  rewrite missing_of_absent. by destruct (absent_fields d).
Qed.

(** An object with both fields is stored under the next id. *)
Lemma add_post_created d s :
  int_ids s → absent_fields d = [] → d ≠ ∅ →
  ∃ new_id, is_next_id s new_id ∧
    add_post (JObj d) s =
      (Response 201 (Jsonify (JObj (<["id" := JInt new_id]> d))),
       s ++ [<["id" := JInt new_id]> d]).
Proof.
  intros Hs Habs Hd%truthy_obj. unfold add_post, try_except, add_post_try.
  rewrite Hd. simpl.
  unfold mbind, handler_bind, Store.lift, Store.read, mret, handler_ret. simpl.
  rewrite missing_of_absent, Habs.
  destruct (max_id_spec s 0 Hs) as (m & -> & Hm).
  exists (m + 1)%Z. split; [by apply next_id_of_max | done].
Qed.

(** Whatever the body, POST leaves the list alone or appends one post
    under the next id. *)
Lemma add_post_state b s :
  int_ids s →
  (add_post b s).2 = s ∨
  ∃ d new_id, is_next_id s new_id ∧
    (add_post b s).2 = s ++ [<["id" := JInt new_id]> d].
Proof.
  intros Hs. unfold add_post, try_except, add_post_try.
  destruct (Py.truthy b); simpl; [|by left].
  unfold mbind, handler_bind, Store.lift, Store.read, mret, handler_ret.
  destruct (Py.str_in "title" b) as [t|]; [|by left].
  destruct (Py.str_in "content" b) as [c|]; [|by left].
  destruct (missing_of t c); [|by left].
  destruct (max_id_spec s 0 Hs) as (m & -> & Hm).
  destruct b as [| | | | | |d]; simpl; try by left.
  right. exists d, (m + 1)%Z. split; [by apply next_id_of_max | done].
Qed.

End add_post_facts.

(** C1, as stated, fails: for the body [{}] the response is 400, but its
    body is [{"error": "Keine Daten gesendet"}] and lists no missing
    fields. *)
Lemma add_post_missing_fields_counterexample :
  let r := (add_post (JObj ∅) POSTS).1 in
  status r = 400 ∧
  body r = Jsonify (JObj {[ "error" := JStr "Keine Daten gesendet" ]}) ∧
  ¬ (missing_fields_of r = Some (JArr [JStr "title"; JStr "content"])).
Proof. cbv zeta. rewrite add_post_empty. by split_and!. Qed.

(** C1 (amended): POST with the body [{}] is answered 400 with the error
    "Keine Daten gesendet" and no [missing_fields]; POST with a non-empty
    JSON object that lacks [title] or [content] is answered 400 with
    [missing_fields] listing every absent one of the two, and only those;
    the collection is unchanged in both cases. *)
Theorem add_post_missing_fields (d : post) (s : list post) :
  add_post (JObj ∅) s = (no_data_error, s) ∧
  missing_fields_of no_data_error = None ∧
  (d ≠ ∅ → d !! "title" = None ∨ d !! "content" = None →
   let r := (add_post (JObj d) s).1 in
   status r = 400 ∧
   missing_fields_of r = Some (JArr (JStr <$> absent_fields d)) ∧
   (∀ k, k ∈ absent_fields d ↔ (k = "title" ∨ k = "content") ∧ d !! k = None) ∧
   (add_post (JObj d) s).2 = s).
Proof.
  split_and!; [done | done |]. intros Hd Habs.
  assert (∀ k, k ∈ absent_fields d ↔
               (k = "title" ∨ k = "content") ∧ d !! k = None) as Hk.
  { intros k. unfold absent_fields. rewrite list_elem_of_filter.
    rewrite !elem_of_cons, elem_of_nil. tauto. }
  rewrite add_post_missing; [done | done |].
  intros Hnil. destruct Habs as [H|H].
  - assert ("title" ∈ absent_fields d) as Hin by (apply Hk; auto).
    rewrite Hnil in Hin. by apply elem_of_nil in Hin.
  - assert ("content" ∈ absent_fields d) as Hin by (apply Hk; auto).
    rewrite Hnil in Hin. by apply elem_of_nil in Hin.
Qed.

(** C1 (amended) on the seed: the body [{"author": "A"}] lacks both
    fields, and both are listed. *)
Lemma add_post_missing_fields_witness :
  let d : post := {[ "author" := JStr "A" ]} in
  let r := (add_post (JObj d) POSTS).1 in
  status r = 400 ∧
  missing_fields_of r = Some (JArr (JStr <$> absent_fields d)) ∧
  (∀ k, k ∈ absent_fields d ↔ (k = "title" ∨ k = "content") ∧ d !! k = None) ∧
  (add_post (JObj d) POSTS).2 = POSTS.
Proof.
  apply (proj2 (proj2 (add_post_missing_fields {[ "author" := JStr "A" ]} POSTS))).
  - intros H. apply (f_equal (λ m : post, m !! "author")) in H.
    vm_compute in H. discriminate H.
  - left. reflexivity.
Defined.

Example post_missing_fields :
  missing_fields_of (add_post (JObj {[ "author" := JStr "A" ]}) POSTS).1
    = Some (JArr [JStr "title"; JStr "content"]) ∧
  missing_fields_of (add_post (JObj {[ "title" := JStr "T" ]}) POSTS).1
    = Some (JArr [JStr "content"]) ∧
  missing_fields_of (add_post (JObj {[ "content" := JStr "C" ]}) POSTS).1
    = Some (JArr [JStr "title"]).
Proof. by vm_compute. Qed.

(** C2: for every POST whose body is a JSON object with both [title] and
    [content], on a collection of int ids, the new post's id is one more
    than the greatest id in the collection (1 when it is empty), the post
    is appended at the end so that the length grows by exactly one, and the
    response is 201 with the created record, the assigned id included. *)
Theorem add_post_assigns_next_id (d : post) (s : list post) :
  int_ids s → is_Some (d !! "title") → is_Some (d !! "content") →
  ∃ new_id created,
    is_next_id s new_id ∧
    created = <["id" := JInt new_id]> d ∧
    add_post (JObj d) s = (Response 201 (Jsonify (JObj created)), s ++ [created]) ∧
    created !! "id" = Some (JInt new_id) ∧
    length (add_post (JObj d) s).2 = S (length s).
Proof.
  intros Hs [t Ht] [c Hc].
  assert (d ≠ ∅) as Hd by (intros ->; by rewrite lookup_empty in Ht).
  assert (absent_fields d = []) as Habs.
  { unfold absent_fields. rewrite !filter_cons, filter_nil.
    repeat case_decide; congruence. }
  destruct (add_post_created d s Hs Habs Hd) as (n & Hn & Hadd).
  exists n, (<["id" := JInt n]> d). rewrite Hadd. split_and!; try done.
  - apply lookup_insert_eq.
  - simpl. rewrite length_app. simpl. lia.
Qed.

(** C2 on the seed: the body [{"title": "T", "content": "C"}]. *)
Lemma add_post_assigns_next_id_witness :
  ∃ new_id created,
    is_next_id POSTS new_id ∧
    created = <["id" := JInt new_id]>
                ({[ "title" := JStr "T"; "content" := JStr "C" ]} : post) ∧
    add_post (JObj {[ "title" := JStr "T"; "content" := JStr "C" ]}) POSTS =
      (Response 201 (Jsonify (JObj created)), POSTS ++ [created]) ∧
    created !! "id" = Some (JInt new_id) ∧
    length (add_post (JObj {[ "title" := JStr "T"; "content" := JStr "C" ]})
              POSTS).2 = S (length POSTS).
Proof.
  apply (add_post_assigns_next_id
           {[ "title" := JStr "T"; "content" := JStr "C" ]} POSTS).
  - unfold int_ids. apply (bool_decide_unpack _). vm_compute. exact I.
  - exists (JStr "T"). reflexivity.
  - exists (JStr "C"). reflexivity.
Defined.

(** On the seed the next id is 4; on the empty collection it is 1. *)
Example add_post_on_seed :
  ids (add_post (JObj {[ "title" := JStr "T"; "content" := JStr "C" ]}) POSTS).2
    = [1; 2; 3; 4]%Z ∧
  ids (add_post (JObj {[ "title" := JStr "T"; "content" := JStr "C" ]}) []).2
    = [1]%Z.
Proof. by vm_compute. Qed.

(* ===================================================================== *)
(** ** Facts about [update_post] and [delete_post] *)
(* ===================================================================== *)

Section update_delete_facts.
Implicit Types (p : post) (s l : list post) (n : N) (b : json).

Lemma merge_items_run i items s p :
  s !! i = Some p →
  merge_items i items s = (Ok (), <[i := merged p items]> s).
Proof.
  revert s p. induction items as [|[k v] items IH]; intros s p Hi.
  - simpl. by rewrite list_insert_id.
  - cbn [merge_items merged foldl fst snd].
    unfold mbind, handler_bind, mret, handler_ret.
    destruct (negb (String.eqb k "id")).
    + unfold Store.setitem. rewrite Hi.
      rewrite (IH (<[i := <[k := v]> p]> s) (<[k := v]> p)).
      * by rewrite list_insert_insert_eq.
      * apply list_lookup_insert_eq. by eapply lookup_lt_Some.
    + by apply IH.
Qed.

Lemma merged_lookup_id p items : merged p items !! "id" = p !! "id".
Proof.
  revert p. induction items as [|[k v] items IH]; intros p; [done|].
  cbn [merged foldl fst snd]. fold (merged (if negb (String.eqb k "id")
    then <[k := v]> p else p) items). rewrite IH.
  destruct (String.eqb_spec k "id"); simpl; [done|].
  by rewrite lookup_insert_ne.
Qed.

Lemma merged_lookup p items k :
  NoDup items.*1 → k ≠ "id" →
  merged p items !! k =
    match (list_to_map items : post) !! k with
    | Some v => Some v
    | None => p !! k
    end.
Proof.
  intros Hnd Hk. revert p.
  induction items as [|[k0 v0] items IH]; intros p; [done|].
  apply NoDup_cons in Hnd as [Hk0 Hnd].
  cbn [merged foldl fst snd]. fold (merged (if negb (String.eqb k0 "id")
    then <[k0 := v0]> p else p) items). rewrite (IH Hnd).
  rewrite list_to_map_cons.
  destruct (decide (k = k0)) as [->|Hne].
  - rewrite lookup_insert_eq.
    rewrite (proj1 (not_elem_of_list_to_map items k0) Hk0).
    destruct (String.eqb_spec k0 "id"); simpl; [done|].
    by rewrite lookup_insert_eq.
  - rewrite (lookup_insert_ne _ k0 k) by done.
    destruct (list_to_map items !! k) as [v|]; [done|].
    destruct (negb _); [by rewrite lookup_insert_ne | done].
Qed.

Lemma merged_id_of p items : id_of (merged p items) = id_of p.
Proof. unfold id_of. by rewrite merged_lookup_id. Qed.

(** PUT on an id the list does not hold: 404, nothing changes. *)
Lemma update_post_absent n b s :
  int_ids s → Z.of_N n ∉ ids s → Py.truthy b = true →
  update_post n b s = (not_found n, s).
Proof.
  intros Hs Hn Hb. unfold update_post, try_except, update_post_try.
  rewrite Hb. simpl.
  unfold mbind, handler_bind, Store.lift, Store.read, mret, handler_ret.
  by rewrite (find_post_absent s _ 0 Hs Hn).
Qed.

(** PUT with an object on the first post that has the id: the items are
    merged into that post and nothing else changes. *)
Lemma update_post_found n d l1 p l2 :
  int_ids l1 → Z.of_N n ∉ ids l1 → id_of p = Some (Z.of_N n) → d ≠ ∅ →
  update_post n (JObj d) (l1 ++ p :: l2) =
    (Response 200 (Jsonify (JObj (merged p (map_to_list d)))),
     l1 ++ merged p (map_to_list d) :: l2).
Proof.
  intros Hl Hn Hp Hd%truthy_obj. unfold update_post, try_except, update_post_try.
  rewrite Hd. cbn [negb].
  unfold mbind, handler_bind, Store.lift, Store.read, mret, handler_ret.
  rewrite (find_post_first l1 p l2 _ 0 Hl Hn Hp). cbn [Py.items Nat.add].
  rewrite (merge_items_run _ _ _ p) by apply list_lookup_middle, eq_refl.
  unfold Store.getpost.
  replace (<[length l1 := merged p (map_to_list d)]> (l1 ++ p :: l2))
    with (l1 ++ merged p (map_to_list d) :: l2).
  - by rewrite list_lookup_middle.
  - rewrite <- (Nat.add_0_r (length l1)) at 1. by rewrite insert_app_r.
Qed.

(** PUT with a body that has no [items] on a post that exists: the
    exception is caught before anything is written. *)
Lemma update_post_state n b s :
  int_ids s →
  (update_post n b s).2 = s ∨
  ∃ d l1 p l2, s = l1 ++ p :: l2 ∧
    (update_post n b s).2 = l1 ++ merged p (map_to_list d) :: l2.
Proof.
  intros Hs. destruct (Py.truthy b) eqn:Hb.
  2:{ left. unfold update_post, try_except, update_post_try. by rewrite Hb. }
  destruct (decide (Z.of_N n ∈ ids s)) as [Hin|Hn].
  2:{ left. by rewrite update_post_absent. }
  destruct (ids_split s _ Hin) as (l1 & p & l2 & -> & Hn & Hp).
  apply Forall_app in Hs as [Hl1 _].
  destruct b as [| | | | | |d].
  7:{ right. exists d, l1, p, l2. split; [done|].
      rewrite update_post_found; [done..|]. by apply truthy_obj. }
  all: left; unfold update_post, try_except, update_post_try; rewrite Hb;
    cbn [negb];
    unfold mbind, handler_bind, Store.lift, Store.read, mret, handler_ret;
    by rewrite (find_post_first l1 p l2 _ 0 Hl1 Hn Hp).
Qed.

(** DELETE on an id the list does not hold: 404, nothing changes. *)
Lemma delete_post_absent n s :
  int_ids s → Z.of_N n ∉ ids s → delete_post n s = (not_found n, s).
Proof.
  intros Hs Hn. unfold delete_post, try_except, delete_post_try.
  unfold mbind, handler_bind, Store.lift, Store.read, mret, handler_ret.
  by rewrite (find_post_absent s _ 0 Hs Hn).
Qed.

(** DELETE removes the first post that has the id. *)
Lemma delete_post_found n l1 p l2 :
  int_ids l1 → Z.of_N n ∉ ids l1 → id_of p = Some (Z.of_N n) →
  delete_post n (l1 ++ p :: l2) = (deleted n, l1 ++ l2).
Proof.
  intros Hl Hn Hp. unfold delete_post, try_except, delete_post_try.
  unfold mbind, handler_bind, Store.lift, Store.read, mret, handler_ret.
  rewrite (find_post_first l1 p l2 _ 0 Hl Hn Hp). cbn [Nat.add].
  unfold Store.pop. rewrite decide_True.
  - by rewrite delete_middle.
  - rewrite length_app. simpl. lia.
Qed.

End update_delete_facts.

(* ===================================================================== *)
(** ** The invariant: int ids, pairwise distinct *)
(* ===================================================================== *)

Section invariant.
Implicit Types (p : post) (s l : list post) (r : request).

Lemma POSTS_ids : ids POSTS = [1; 2; 3]%Z.
Proof. by vm_compute. Qed.

Lemma POSTS_int_ids : int_ids POSTS.
Proof. unfold int_ids. apply (bool_decide_unpack _). by vm_compute. Qed.

Lemma POSTS_unique_ids : unique_ids POSTS.
Proof.
  split; [apply POSTS_int_ids|]. rewrite POSTS_ids.
  apply (bool_decide_unpack _). by vm_compute.
Qed.

Lemma ids_replace l1 p p' l2 :
  id_of p' = id_of p → ids (l1 ++ p' :: l2) = ids (l1 ++ p :: l2).
Proof. intros H. rewrite !ids_app. unfold ids. simpl. by rewrite H. Qed.

Lemma int_ids_replace l1 p p' l2 :
  id_of p' = id_of p → int_ids (l1 ++ p :: l2) → int_ids (l1 ++ p' :: l2).
Proof.
  intros H. unfold int_ids. rewrite !Forall_app, !Forall_cons. by rewrite H.
Qed.

Lemma unique_ids_remove l1 p l2 :
  unique_ids (l1 ++ p :: l2) → unique_ids (l1 ++ l2).
Proof.
  intros [Hint Hnd]. split.
  - revert Hint. unfold int_ids. rewrite !Forall_app, Forall_cons. tauto.
  - apply Forall_app in Hint as [_ [[z Hz] _]%Forall_cons].
    revert Hnd. rewrite !ids_app, (ids_cons p l2 z Hz).
    rewrite !NoDup_app, NoDup_cons.
    intros (H1 & H2 & _ & H3). split_and!; [done | | done].
    intros y Hy Hy'. apply (H2 y Hy). by right.
Qed.

Lemma unique_ids_append s d n :
  is_next_id s n → unique_ids s → unique_ids (s ++ [<["id" := JInt n]> d]).
Proof.
  intros Hn [Hint Hnd].
  assert (id_of (<["id" := JInt n]> d) = Some n) as Hid.
  { unfold id_of. by rewrite lookup_insert_eq. }
  split.
  - apply Forall_app. split; [done|]. constructor; [by rewrite Hid | constructor].
  - rewrite ids_app, (ids_cons _ [] n Hid). apply NoDup_app. split_and!.
    + done.
    + intros z Hz [->|Hnil%elem_of_nil]%elem_of_cons; [|done].
      destruct Hn as [[-> _]|[_ Hmax]].
      * by apply elem_of_nil in Hz.
      * specialize (Hmax _ Hz). lia.
    + apply NoDup_singleton.
Qed.

Lemma delete_post_state n s :
  int_ids s →
  (delete_post n s).2 = s ∨
  ∃ l1 p l2, s = l1 ++ p :: l2 ∧ (delete_post n s).2 = l1 ++ l2.
Proof.
  intros Hs. destruct (decide (Z.of_N n ∈ ids s)) as [Hin|Hn].
  - destruct (ids_split s _ Hin) as (l1 & p & l2 & -> & Hn & Hp).
    apply Forall_app in Hs as [Hl1 _].
    right. exists l1, p, l2. by rewrite delete_post_found.
  - left. by rewrite delete_post_absent.
Qed.

(** Every request keeps the invariant. *)
Lemma handle_unique_ids r s : unique_ids s → unique_ids (handle r s).2.
Proof.
  intros Hinv. pose proof Hinv as [Hint Hnd]. destruct r as [args|b|n b|n]; simpl.
  - by rewrite list_posts_state.
  - destruct (add_post_state b s Hint) as [->|(d & n & Hn & ->)]; [done|].
    by apply unique_ids_append.
  - destruct (update_post_state n b s Hint)
      as [->|(d & l1 & p & l2 & -> & ->)]; [done|].
    split.
    + eapply int_ids_replace; [apply merged_id_of | done].
    + by rewrite (ids_replace l1 p) by apply merged_id_of.
  - destruct (delete_post_state n s Hint) as [->|(l1 & p & l2 & -> & ->)];
      [done|].
    by eapply unique_ids_remove.
Qed.

(** The invariant holds in every list the service can reach. *)
Lemma reachable_inv s : reachable s → unique_ids s.
Proof.
  induction 1 as [|s r _ IH]; [apply POSTS_unique_ids | by apply handle_unique_ids].
Qed.

End invariant.

(** C3: uniqueness of ids is preserved by every operation: when the ids of
    the collection are ints and pairwise distinct before a GET, POST, PUT or
    DELETE request (whatever its parameters or body), they are ints and
    pairwise distinct after it. *)
Theorem unique_ids_preserved (r : request) (s : list post) :
  int_ids s → NoDup (ids s) →
  int_ids (handle r s).2 ∧ NoDup (ids (handle r s).2).
Proof. intros Hint Hnd. by apply (handle_unique_ids r s). Qed.

(** C3 on the seed, for a POST that creates a post. *)
Lemma unique_ids_preserved_witness :
  int_ids (handle (POST (JObj {[ "title" := JStr "T"; "content" := JStr "C" ]}))
             POSTS).2 ∧
  NoDup (ids (handle (POST (JObj {[ "title" := JStr "T"; "content" := JStr "C" ]}))
                POSTS).2).
Proof.
  apply (unique_ids_preserved
           (POST (JObj {[ "title" := JStr "T"; "content" := JStr "C" ]})) POSTS).
  - exact POSTS_int_ids.
  - exact (proj2 POSTS_unique_ids).
Defined.

Section removal_facts.
Implicit Types (p : post) (s l : list post) (z : Z).

Lemma removed_id_absent l1 p l2 z :
  unique_ids (l1 ++ p :: l2) → id_of p = Some z → z ∉ ids (l1 ++ l2).
Proof.
  intros [_ Hnd] Hp. revert Hnd. rewrite !ids_app, (ids_cons p l2 z Hp).
  rewrite NoDup_app, NoDup_cons. intros (_ & H1 & H2 & _).
  intros [Hin|Hin]%elem_of_app; [|done].
  apply (H1 z Hin). by left.
Qed.

Lemma id_of_elem_of s p z : p ∈ s → id_of p = Some z → z ∈ ids s.
Proof. intros Hp Hz. unfold ids. apply list_elem_of_omap. eauto. Qed.

End removal_facts.

(** C6: for every PUT with a non-empty JSON object on an id the collection
    holds, every key of the body except "id" is merged into the post with
    that id, every field the body does not name keeps its value, the id is
    unchanged even if the body has an "id" key, all other posts are
    unchanged and stay where they are, and the response is 200 with the
    updated post. *)
Theorem update_post_merges (n : N) (d : post) (s : list post) :
  int_ids s → d ≠ ∅ → Z.of_N n ∈ ids s →
  ∃ l1 p l2 p',
    s = l1 ++ p :: l2 ∧ id_of p = Some (Z.of_N n) ∧ (Z.of_N n ∉ ids l1) ∧
    update_post n (JObj d) s =
      (Response 200 (Jsonify (JObj p')), l1 ++ p' :: l2) ∧
    (∀ k v, k ≠ "id" → d !! k = Some v → p' !! k = Some v) ∧
    (∀ k, d !! k = None → p' !! k = p !! k) ∧
    p' !! "id" = p !! "id" ∧
    id_of p' = Some (Z.of_N n).
Proof.
  intros Hs Hd Hin.
  destruct (ids_split s _ Hin) as (l1 & p & l2 & -> & Hn & Hp).
  apply Forall_app in Hs as [Hl1 _].
  exists l1, p, l2, (merged p (map_to_list d)).
  split_and!; try done.
  - by apply update_post_found.
  - intros k v Hk Hv.
    rewrite merged_lookup by (done || apply NoDup_fst_map_to_list).
    by rewrite list_to_map_to_list, Hv.
  - intros k Hk. destruct (decide (k = "id")) as [->|Hne].
    + apply merged_lookup_id.
    + rewrite merged_lookup by (done || apply NoDup_fst_map_to_list).
      by rewrite list_to_map_to_list, Hk.
  - apply merged_lookup_id.
  - by rewrite merged_id_of.
Qed.

(** C6 on the seed: [PUT /api/posts/1] with [{"title": "New", "id": 7}]. *)
Lemma update_post_merges_witness :
  ∃ l1 p l2 p',
    POSTS = l1 ++ p :: l2 ∧ id_of p = Some (Z.of_N 1) ∧ (Z.of_N 1 ∉ ids l1) ∧
    update_post 1 (JObj {[ "title" := JStr "New"; "id" := JInt 7 ]}) POSTS =
      (Response 200 (Jsonify (JObj p')), l1 ++ p' :: l2) ∧
    (∀ k v, k ≠ "id" →
       ({[ "title" := JStr "New"; "id" := JInt 7 ]} : post) !! k = Some v →
       p' !! k = Some v) ∧
    (∀ k, ({[ "title" := JStr "New"; "id" := JInt 7 ]} : post) !! k = None →
       p' !! k = p !! k) ∧
    p' !! "id" = p !! "id" ∧
    id_of p' = Some (Z.of_N 1).
Proof.
  apply (update_post_merges 1 {[ "title" := JStr "New"; "id" := JInt 7 ]} POSTS).
  - exact POSTS_int_ids.
  - intros H. apply (f_equal (λ m : post, m !! "title")) in H.
    vm_compute in H. discriminate H.
  - rewrite POSTS_ids. by vm_compute; left.
Defined.

(** C7: for every PUT (with a body that is not empty) or DELETE on an id
    the collection does not hold, the response is 404 with the message
    "Kein Post mit ID {id} vorhanden." and the collection is unchanged; so
    the same DELETE repeated is answered 404 both times, also right after
    the DELETE that removed the post. *)
Theorem unknown_id_not_found (n : N) (s : list post) :
  int_ids s → Z.of_N n ∉ ids s →
  (∀ b, Py.truthy b = true → update_post n b s = (not_found n, s)) ∧
  delete_post n s = (not_found n, s) ∧
  delete_post n (delete_post n s).2 = (not_found n, s) ∧
  not_found n =
    Response 404 (Jsonify (JObj
      {[ "error" := JStr "Post nicht gefunden";
         "message" := JStr ("Kein Post mit ID " +:+ pretty n +:+ " vorhanden.") ]})) ∧
  (∀ s0, unique_ids s0 → Z.of_N n ∈ ids s0 →
     let s1 := (delete_post n s0).2 in
     status (delete_post n s0).1 = 200 ∧
     delete_post n s1 = (not_found n, s1) ∧
     delete_post n (delete_post n s1).2 = (not_found n, s1)).
Proof.
  intros Hs Hn. split_and!.
  - intros b Hb. by apply update_post_absent.
  - by apply delete_post_absent.
  - rewrite (delete_post_absent n s Hs Hn). cbn [snd]. by apply delete_post_absent.
  - done.
  - intros s0 Hinv Hin. cbv zeta.
    destruct (ids_split s0 _ Hin) as (l1 & p & l2 & -> & Hn1 & Hp).
    pose proof (unique_ids_remove _ _ _ Hinv) as [Hint' _].
    pose proof (removed_id_absent _ _ _ _ Hinv Hp) as Hgone.
    destruct Hinv as [[Hl1 _]%Forall_app _].
    rewrite (delete_post_found n l1 p l2 Hl1 Hn1 Hp). cbn [fst snd].
    rewrite !(delete_post_absent n (l1 ++ l2) Hint' Hgone). cbn [snd].
    by rewrite (delete_post_absent n (l1 ++ l2) Hint' Hgone).
Qed.

(** C7 on the seed, for the id 999. *)
Lemma unknown_id_not_found_witness :
  (∀ b, Py.truthy b = true → update_post 999 b POSTS = (not_found 999, POSTS)) ∧
  delete_post 999 POSTS = (not_found 999, POSTS) ∧
  delete_post 999 (delete_post 999 POSTS).2 = (not_found 999, POSTS) ∧
  not_found 999 =
    Response 404 (Jsonify (JObj
      {[ "error" := JStr "Post nicht gefunden";
         "message" := JStr ("Kein Post mit ID " +:+ pretty 999%N +:+ " vorhanden.") ]})) ∧
  (∀ s0, unique_ids s0 → Z.of_N 999 ∈ ids s0 →
     let s1 := (delete_post 999 s0).2 in
     status (delete_post 999 s0).1 = 200 ∧
     delete_post 999 s1 = (not_found 999, s1) ∧
     delete_post 999 (delete_post 999 s1).2 = (not_found 999, s1)).
Proof.
  apply (unknown_id_not_found 999 POSTS).
  - exact POSTS_int_ids.
  - rewrite POSTS_ids. vm_compute. intros H.
    repeat (apply elem_of_cons in H as [H|H]; [discriminate H|]).
    by apply elem_of_nil in H.
Defined.

Example not_found_message_999 :
  not_found_message 999 = "Kein Post mit ID 999 vorhanden.".
Proof. by vm_compute. Qed.

(** C8: for every DELETE on an id the collection holds, the first post
    with that id is removed and the others stay in their order, the
    response is 200 with the message "Post with id {id} has been deleted
    successfully.", and a following GET without parameters returns the
    remaining posts, none of which has that id. *)
Theorem delete_post_removes (n : N) (s : list post) :
  unique_ids s → Z.of_N n ∈ ids s →
  ∃ l1 p l2,
    s = l1 ++ p :: l2 ∧ id_of p = Some (Z.of_N n) ∧ (Z.of_N n ∉ ids l1) ∧
    delete_post n s =
      (Response 200 (Jsonify (JObj
         {[ "message" := JStr ("Post with id " +:+ pretty n +:+
                               " has been deleted successfully.") ]})),
       l1 ++ l2) ∧
    list_posts no_params (l1 ++ l2) =
      (Response 200 (Jsonify (json_of_posts (l1 ++ l2))), l1 ++ l2) ∧
    (∀ q, q ∈ l1 ++ l2 → id_of q ≠ Some (Z.of_N n)).
Proof.
  intros Hinv Hin.
  destruct (ids_split s _ Hin) as (l1 & p & l2 & -> & Hn & Hp).
  pose proof (removed_id_absent _ _ _ _ Hinv Hp) as Hgone.
  destruct Hinv as [[Hl1 _]%Forall_app _].
  exists l1, p, l2.
  split_and!; [done | done | done | | apply list_posts_no_params |].
  - by rewrite delete_post_found.
  - intros q Hq Hid. apply Hgone. by eapply id_of_elem_of.
Qed.

(** C8 on the seed: [DELETE /api/posts/2]. *)
Lemma delete_post_removes_witness :
  ∃ l1 p l2,
    POSTS = l1 ++ p :: l2 ∧ id_of p = Some (Z.of_N 2) ∧ (Z.of_N 2 ∉ ids l1) ∧
    delete_post 2 POSTS =
      (Response 200 (Jsonify (JObj
         {[ "message" := JStr ("Post with id " +:+ pretty 2%N +:+
                               " has been deleted successfully.") ]})),
       l1 ++ l2) ∧
    list_posts no_params (l1 ++ l2) =
      (Response 200 (Jsonify (json_of_posts (l1 ++ l2))), l1 ++ l2) ∧
    (∀ q, q ∈ l1 ++ l2 → id_of q ≠ Some (Z.of_N 2)).
Proof.
  apply (delete_post_removes 2 POSTS).
  - exact POSTS_unique_ids.
  - rewrite POSTS_ids. vm_compute. right. by left.
Defined.

Example deleted_message_2 :
  deleted_message 2 = "Post with id 2 has been deleted successfully.".
Proof. by vm_compute. Qed.

(* ===================================================================== *)
(** ** The handlers on the seed *)
(* ===================================================================== *)

Example get_all : listed (list_posts no_params POSTS) = (200, [1; 2; 3]%Z).
Proof. by vm_compute. Qed.

Example get_search_flask :
  listed (list_posts (Query (Some "FLASK") None None) POSTS) = (200, [2]%Z).
Proof. by vm_compute. Qed.

Example get_search_nothing :
  listed (list_posts (Query (Some "rust") None None) POSTS) = (200, []).
Proof. by vm_compute. Qed.

Example get_sort_title_desc :
  listed (list_posts (Query None (Some "title") (Some "desc")) POSTS)
    = (200, [3; 1; 2]%Z).
Proof. by vm_compute. Qed.

Example get_sort_title_bogus :
  listed (list_posts (Query None (Some "title") (Some "bogus")) POSTS)
    = (400, []).
Proof. by vm_compute. Qed.

Example get_bogus_without_sort :
  listed (list_posts (Query None None (Some "bogus")) POSTS)
    = (200, [1; 2; 3]%Z).
Proof. by vm_compute. Qed.

(** Equal keys keep their order in both directions: the descending list
    is not the ascending list reversed. *)
Example sorted_ties :
  snd <$> sorted [("b", 1); ("a", 2); ("b", 3); ("a", 4)] false = [2; 4; 1; 3] ∧
  snd <$> sorted [("b", 1); ("a", 2); ("b", 3); ("a", 4)] true = [1; 3; 2; 4].
Proof. by vm_compute. Qed.

Example put_unknown :
  status (update_post 999 (JObj {[ "title" := JStr "New" ]}) POSTS).1 = 404.
Proof. by vm_compute. Qed.

Example put_without_data : status (update_post 1 (JObj ∅) POSTS).1 = 400.
Proof. by vm_compute. Qed.

Example delete_twice :
  status (delete_post 2 POSTS).1 = 200 ∧
  status (delete_post 2 (delete_post 2 POSTS).2).1 = 404 ∧
  status (delete_post 2 (delete_post 2 (delete_post 2 POSTS).2).2).1 = 404.
Proof. by vm_compute. Qed.

(** A body that is not an object: a list passes the presence checks and
    fails at the id assignment; a number fails at the first check. *)
Example post_not_an_object :
  status (add_post (JArr [JStr "title"; JStr "content"]) POSTS).1 = 500 ∧
  status (add_post (JInt 5) POSTS).1 = 500 ∧
  status (add_post JNull POSTS).1 = 400.
Proof. by vm_compute. Qed.

(* ===================================================================== *)
(** ** What each handler does to the list, whatever the list holds *)
(* ===================================================================== *)

Section shapes.
Implicit Types (p : post) (s : list post) (b : json) (n : N).

(** Where the loop stops there is a post, and its id equals the one asked
    for. *)
Lemma find_post_Some s z i j :
  find_post s z i = Ok (Some j) →
  ∃ p v, i ≤ j ∧ s !! (j - i) = Some p ∧
         p !! "id" = Some v ∧ Py.eq_int v z = true.
Proof.
  revert i. induction s as [|q s IH]; intros i; simpl; [done|].
  unfold Py.getitem. destruct (q !! "id") as [v|] eqn:Hv; simpl; [|done].
  destruct (Py.eq_int v z) eqn:Heq.
  - intros [= <-]. exists q, v. rewrite Nat.sub_diag. by split_and!.
  - intros (p & w & Hle & Hp & Hw & Hz)%IH. exists p, w.
    split_and!; [lia | | done | done].
    replace (j - i) with (S (j - S i)) by lia. done.
Qed.

Lemma add_post_shape b s :
  ((add_post b s).2 = s ∧ 400 ≤ status (add_post b s).1) ∨
  ∃ d m, b = JObj d ∧ d ≠ ∅ ∧ absent_fields d = [] ∧ max_id s 0 = Ok m ∧
    add_post b s =
      (Response 201 (Jsonify (JObj (<["id" := JInt (m + 1)]> d))),
       s ++ [<["id" := JInt (m + 1)]> d]).
Proof.
  destruct b as [| | | | | |d].
  7:{ destruct (decide (d = ∅)) as [->|Hd].
      { left. rewrite add_post_empty. simpl. split; [done | lia]. }
      destruct (absent_fields d) as [|k ks] eqn:Habs.
      2:{ left. rewrite add_post_missing by (done || by rewrite Habs).
          simpl. split; [done | lia]. }
      pose proof (proj2 (truthy_obj d) Hd) as Ht.
      unfold add_post, try_except, add_post_try. rewrite Ht. cbn [negb].
      unfold mbind, handler_bind, Store.lift, Store.read, mret, handler_ret.
      cbn [Py.str_in]. rewrite missing_of_absent, Habs.
      destruct (max_id s 0) as [m|e]; simpl.
      - right. by exists d, m.
      - left. split; [done | lia]. }
  all: left; unfold add_post, try_except, add_post_try;
    destruct (Py.truthy _); simpl; [|split; [done | lia]];
    unfold mbind, handler_bind, Store.lift, Store.read, mret, handler_ret;
    simpl; try (split; [done | lia]).
  - destruct (Text.contains "title" s0), (Text.contains "content" s0); simpl;
      try (split; [done | lia]).
    destruct (max_id s 0); simpl; split; done || lia.
  - destruct (existsb _ l), (existsb _ l); simpl; try (split; [done | lia]).
    destruct (max_id s 0); simpl; split; done || lia.
Qed.

Lemma update_post_shape n b s :
  ((update_post n b s).2 = s ∧ 400 ≤ status (update_post n b s).1) ∨
  ∃ i p d, b = JObj d ∧ d ≠ ∅ ∧ s !! i = Some p ∧
    find_post s (Z.of_N n) 0 = Ok (Some i) ∧
    update_post n b s =
      (Response 200 (Jsonify (JObj (merged p (map_to_list d)))),
       <[i := merged p (map_to_list d)]> s).
Proof.
  unfold update_post, try_except, update_post_try.
  destruct (Py.truthy b) eqn:Hb; simpl; [|left; split; [done | lia]].
  unfold mbind, handler_bind, Store.lift, Store.read, mret, handler_ret.
  destruct (find_post s (Z.of_N n) 0) as [[i|]|e] eqn:Hfind; simpl;
    [|left; split; [done | lia]..].
  destruct (find_post_Some _ _ _ _ Hfind) as (p & v & _ & Hp & Hv & Heq).
  rewrite Nat.sub_0_r in Hp.
  destruct b as [| | | | | |d]; simpl; try (left; split; [done | lia]).
  right. exists i, p, d. split_and!; [done | by apply truthy_obj | done | done |].
  rewrite (merge_items_run i _ s p Hp). unfold Store.getpost.
  rewrite list_lookup_insert_eq by (by eapply lookup_lt_Some). done.
Qed.

Lemma delete_post_shape n s :
  ((delete_post n s).2 = s ∧ 400 ≤ status (delete_post n s).1) ∨
  ∃ i p, s !! i = Some p ∧
    (∃ v, p !! "id" = Some v ∧ Py.eq_int v (Z.of_N n) = true) ∧
    delete_post n s = (deleted n, delete i s).
Proof.
  unfold delete_post, try_except, delete_post_try.
  unfold mbind, handler_bind, Store.lift, Store.read, mret, handler_ret.
  destruct (find_post s (Z.of_N n) 0) as [[i|]|e] eqn:Hfind; simpl;
    [|left; split; [done | lia]..].
  destruct (find_post_Some _ _ _ _ Hfind) as (p & v & _ & Hp & Hv & Heq).
  rewrite Nat.sub_0_r in Hp.
  right. exists i, p. split_and!; [done | by eauto |].
  unfold Store.pop. rewrite decide_True by (by eapply lookup_lt_Some). done.
Qed.

End shapes.

(** X1: on a collection of int ids (every collection the service reaches
    is one), a request that is answered with an error status (400 or above)
    leaves the collection exactly as it was: a handler fails before its
    first write, and after the write it only builds the response from JSON
    values. *)
Theorem error_leaves_collection (r : request) (s : list post) :
  int_ids s → 400 ≤ status (handle r s).1 → (handle r s).2 = s.
Proof.
  intros _. destruct r as [args|b|n b|n]; simpl; intros Hst.
  - apply list_posts_state.
  - destruct (add_post_shape b s) as [[H _]|(d & m & _ & _ & _ & _ & H)]; [done|].
    rewrite H in Hst. simpl in Hst. lia.
  - destruct (update_post_shape n b s) as [[H _]|(i & p & d & _ & _ & _ & _ & H)];
      [done|].
    rewrite H in Hst. simpl in Hst. lia.
  - destruct (delete_post_shape n s) as [[H _]|(i & p & _ & _ & H)]; [done|].
    rewrite H in Hst. simpl in Hst. lia.
Qed.

(** X1 on the seed: a PUT whose body is a list, on a post that exists. *)
Lemma error_leaves_collection_witness :
  (handle (PUT 1 (JArr [JInt 1])) POSTS).2 = POSTS.
Proof.
  apply (error_leaves_collection (PUT 1 (JArr [JInt 1])) POSTS).
  - exact POSTS_int_ids.
  - replace (status (handle (PUT 1 (JArr [JInt 1])) POSTS).1) with 500
      by (by vm_compute).
    lia.
Defined.

(* ===================================================================== *)
(** ** What holds of every list the service reaches *)
(* ===================================================================== *)

Section reachable_facts.
Implicit Types (p : post) (s : list post) (r : request).

Lemma ids_insert s i p p' :
  s !! i = Some p → id_of p' = id_of p → ids (<[i := p']> s) = ids s.
Proof.
  intros Hi Hid. rewrite insert_take_drop by (by eapply lookup_lt_Some).
  rewrite <- (take_drop_middle s i p Hi) at 3. by apply ids_replace.
Qed.

Lemma merged_is_Some p items k :
  is_Some (p !! k) → is_Some (merged p items !! k).
Proof.
  revert p. induction items as [|[k0 v0] items IH]; intros p Hp; [done|].
  cbn [merged foldl fst snd]. apply IH.
  destruct (negb _); [|done].
  destruct (decide (k0 = k)) as [->|Hne].
  - rewrite lookup_insert_eq. by eexists.
  - by rewrite lookup_insert_ne.
Qed.

Lemma merged_map_lookup p (d : post) k :
  k ≠ "id" →
  merged p (map_to_list d) !! k =
    match d !! k with Some v => Some v | None => p !! k end.
Proof.
  intros Hk. rewrite merged_lookup by (done || apply NoDup_fst_map_to_list).
  by rewrite list_to_map_to_list.
Qed.

(** Every request keeps the ids ascending and at least 1. *)
Lemma handle_ascending_ids r s : ascending_ids s → ascending_ids (handle r s).2.
Proof.
  intros (Hint & Hsort & Hpos). destruct r as [args|b|n b|n]; simpl.
  - by rewrite list_posts_state.
  - destruct (add_post_shape b s) as [[-> _]|(d & m & _ & _ & _ & Hm & ->)];
      [done|]. cbn [snd].
    destruct (max_id_spec s 0 Hint) as (m' & Hm' & Hmax).
    rewrite Hm in Hm'. injection Hm' as <-.
    assert (id_of (<["id" := JInt (m + 1)]> d) = Some (m + 1)%Z) as Hid.
    { unfold id_of. by rewrite lookup_insert_eq. }
    split_and!.
    + apply Forall_app. split; [done|]. constructor; [by rewrite Hid | constructor].
    + rewrite ids_app, (ids_cons _ [] _ Hid). apply StronglySorted_app.
      split_and!; [|done | repeat constructor].
      intros x y Hx [->|Hy%elem_of_nil]%elem_of_cons; [|done].
      destruct Hmax as [[-> _]|[_ Hmax]]; [by apply elem_of_nil in Hx|].
      specialize (Hmax x Hx). lia.
    + rewrite ids_app, (ids_cons _ [] _ Hid). apply Forall_app. split; [done|].
      constructor; [|constructor].
      destruct Hmax as [[_ ->]|[Hin _]]; [lia|].
      pose proof (proj1 (Forall_forall _ _) Hpos m Hin). simpl in *. lia.
  - destruct (update_post_shape n b s)
      as [[-> _]|(i & p & d & _ & _ & Hp & _ & ->)]; [done|]. cbn [snd].
    unfold ascending_ids.
    rewrite (ids_insert s i p) by (done || apply merged_id_of).
    split_and!; [|done..]. apply Forall_insert; [done|].
    rewrite merged_id_of. by apply (proj1 (Forall_forall _ _) Hint p), list_elem_of_lookup_2 with i.
  - destruct (delete_post_shape n s) as [[-> _]|(i & p & Hp & _ & ->)]; [done|].
    cbn [snd]. rewrite delete_take_drop.
    rewrite <- (take_drop_middle s i p Hp) in Hint, Hsort, Hpos.
    apply Forall_app in Hint as [Hl1 [[z Hz] Hl2]%Forall_cons].
    rewrite ids_app, (ids_cons p _ z Hz) in Hsort, Hpos.
    apply StronglySorted_app in Hsort as (H12 & Hs1 & [_ Hs2]%StronglySorted_cons).
    apply Forall_app in Hpos as [Hp1 [_ Hp2]%Forall_cons].
    split_and!.
    + by apply Forall_app.
    + rewrite ids_app. apply StronglySorted_app. split_and!; [|done..].
      intros x y Hx Hy. apply H12; [done | by right].
    + rewrite ids_app. by apply Forall_app.
Qed.

Lemma POSTS_ascending_ids : ascending_ids POSTS.
Proof.
  split_and!; [apply POSTS_int_ids | |]; rewrite POSTS_ids;
    apply (bool_decide_unpack _); by vm_compute.
Qed.

(** Every request keeps the three keys in every post. *)
Lemma handle_has_fields r s : has_fields s → has_fields (handle r s).2.
Proof.
  intros Hs. destruct r as [args|b|n b|n]; simpl.
  - by rewrite list_posts_state.
  - destruct (add_post_shape b s) as [[-> _]|(d & m & _ & _ & Habs & _ & ->)];
      [done|]. cbn [snd].
    apply Forall_app. split; [done|]. constructor; [|constructor].
    revert Habs. unfold absent_fields. rewrite !filter_cons, filter_nil.
    rewrite lookup_insert_eq, !lookup_insert_ne by done.
    destruct (d !! "title"), (d !! "content"); repeat case_decide;
      try done; by eauto.
  - destruct (update_post_shape n b s)
      as [[-> _]|(i & p & d & _ & _ & Hp & _ & ->)]; [done|]. cbn [snd].
    apply Forall_insert; [done|].
    pose proof (proj1 (Forall_forall _ _) Hs p (list_elem_of_lookup_2 _ _ _ Hp))
      as (H1 & H2 & H3).
    split_and!; by apply merged_is_Some.
  - destruct (delete_post_shape n s) as [[-> _]|(i & p & _ & _ & ->)]; [done|].
    by apply Forall_delete.
Qed.

Lemma POSTS_has_fields : has_fields POSTS.
Proof. unfold has_fields. apply (bool_decide_unpack _). by vm_compute. Qed.

(** A text request keeps titles and contents text. *)
Lemma handle_text_fields r s :
  text_fields s → text_request r → text_fields (handle r s).2.
Proof.
  intros Hs Hr. destruct r as [args|b|n b|n]; simpl.
  - by rewrite list_posts_state.
  - destruct (add_post_shape b s) as [[-> _]|(d & m & -> & _ & _ & _ & ->)];
      [done|]. cbn [snd].
    apply Forall_app. split; [done|]. constructor; [|constructor].
    by rewrite !lookup_insert_ne.
  - destruct (update_post_shape n b s)
      as [[-> _]|(i & p & d & -> & _ & Hp & _ & ->)]; [done|]. cbn [snd].
    apply Forall_insert; [done|].
    pose proof (proj1 (Forall_forall _ _) Hs p (list_elem_of_lookup_2 _ _ _ Hp))
      as (H1 & H2).
    destruct Hr as [Ht Hc]. rewrite !merged_map_lookup by done.
    by destruct (d !! "title"), (d !! "content").
  - destruct (delete_post_shape n s) as [[-> _]|(i & p & _ & _ & ->)]; [done|].
    by apply Forall_delete.
Qed.

Lemma text_reachable_text_fields s : text_reachable s → text_fields s.
Proof.
  induction 1 as [|s r _ IH Hr]; [apply POSTS_text_fields|].
  by apply handle_text_fields.
Qed.

End reachable_facts.

(** X2: in every collection the service can reach from the seed, every post
    carries an int id, the ids are strictly ascending in list order (so the
    posts stand in the order of their creation and no id occurs twice), and
    every id is at least 1. *)
Theorem reachable_ascending_ids (s : list post) :
  reachable s →
  int_ids s ∧ StronglySorted Z.lt (ids s) ∧ Forall (λ z, (1 ≤ z)%Z) (ids s) ∧
  NoDup (ids s).
Proof.
  intros Hs.
  assert (ascending_ids s) as (H1 & H2 & H3).
  { induction Hs as [|s r _ IH]; [apply POSTS_ascending_ids|].
    by apply handle_ascending_ids. }
  split_and!; [done..|]. by apply reachable_inv.
Qed.

(** X2 after a deletion and a creation on the seed. *)
Lemma reachable_ascending_ids_witness :
  let s := (handle (POST (JObj {[ "title" := JStr "T"; "content" := JStr "C" ]}))
              (handle (DELETE 2) POSTS).2).2 in
  int_ids s ∧ StronglySorted Z.lt (ids s) ∧ Forall (λ z, (1 ≤ z)%Z) (ids s) ∧
  NoDup (ids s).
Proof.
  apply (reachable_ascending_ids
    (handle (POST (JObj {[ "title" := JStr "T"; "content" := JStr "C" ]}))
       (handle (DELETE 2) POSTS).2).2).
  apply reachable_step, reachable_step, reachable_seed.
Defined.

(** X3: in every collection the service can reach from the seed, every post
    has the keys "id", "title" and "content": POST demands the two fields
    and writes the id, PUT only adds or overwrites keys, so the default of
    [post.get] in the search and the sort is never used. *)
Theorem reachable_has_fields (s : list post) :
  reachable s →
  Forall (λ p, is_Some (p !! "id") ∧ is_Some (p !! "title") ∧
               is_Some (p !! "content")) s.
Proof.
  induction 1 as [|s r _ IH]; [apply POSTS_has_fields|].
  by apply handle_has_fields.
Qed.

(** X3 after a PUT that names other keys only. *)
Lemma reachable_has_fields_witness :
  Forall (λ p, is_Some (p !! "id") ∧ is_Some (p !! "title") ∧
               is_Some (p !! "content"))
    (handle (PUT 1 (JObj {[ "author" := JStr "A" ]})) POSTS).2.
Proof.
  apply (reachable_has_fields (handle (PUT 1 (JObj {[ "author" := JStr "A" ]})) POSTS).2).
  apply reachable_step, reachable_seed.
Defined.

(** X4: as long as every POST and PUT body carries text (or nothing) as
    title and content, the stored titles and contents stay text and GET is
    never answered 500: whatever its parameters, the status is 200 or 400. *)
Theorem text_reachable_get (s : list post) (args : query) :
  text_reachable s →
  text_fields s ∧
  (status (list_posts args s).1 = 200 ∨ status (list_posts args s).1 = 400).
Proof.
  intros Hs%text_reachable_text_fields. split; [done|].
  rewrite list_posts_cases. cbn [fst].
  destruct (search_posts_text s
    (Text.strip (default EmptyString (search args))) Hs) as (found & -> & Hf & _).
  pose proof (filtered_by_Forall _ _ _ _ Hf Hs) as Hfound.
  destruct (sort_present args) eqn:Hsort; [|by left].
  destruct (direction_valid args); [|by right].
  unfold sort_present in Hsort. destruct (sort args) as [f|]; [|done]. simpl.
  destruct (decide (f = "title" ∨ f = "content")) as [Hrec|Hrec].
  - destruct (sort_posts_text found f (default "asc" (direction args)) Hfound Hrec)
      as (out & -> & _). by left.
  - rewrite sort_posts_other by naive_solver. by left.
Qed.

(** X4 after a POST with a text title and content. *)
Lemma text_reachable_get_witness :
  let s := (handle (POST (JObj {[ "title" := JStr "T"; "content" := JStr "C" ]}))
              POSTS).2 in
  let args := Query (Some "t") (Some "content") (Some "desc") in
  text_fields s ∧
  (status (list_posts args s).1 = 200 ∨ status (list_posts args s).1 = 400).
Proof.
  apply (text_reachable_get
    (handle (POST (JObj {[ "title" := JStr "T"; "content" := JStr "C" ]})) POSTS).2
    (Query (Some "t") (Some "content") (Some "desc"))).
  apply text_reachable_step; [apply text_reachable_seed|].
  split; exact I.
Defined.

(* ===================================================================== *)
(** ** How POST, PUT and DELETE compose *)
(* ===================================================================== *)

Section composition_facts.
Implicit Types (p : post) (s : list post) (b : json) (n : N) (d : post).

Lemma find_post_insert s i p p' z j :
  s !! i = Some p → p' !! "id" = p !! "id" →
  find_post (<[i := p']> s) z j = find_post s z j.
Proof.
  revert i j. induction s as [|q s IH]; intros [|i] j Hi Hid; try done.
  - simpl in Hi. injection Hi as ->. simpl. unfold Py.getitem. by rewrite Hid.
  - simpl in *. by rewrite (IH i (S j) Hi Hid).
Qed.

Lemma merged_idemp p d :
  merged (merged p (map_to_list d)) (map_to_list d) = merged p (map_to_list d).
Proof.
  apply map_eq. intros k. destruct (decide (k = "id")) as [->|Hk].
  - by rewrite !merged_lookup_id.
  - rewrite !merged_map_lookup by done. by destruct (d !! k).
Qed.

Lemma next_id_fresh s m :
  int_ids s → is_next_id s m → m ∉ ids s.
Proof.
  intros _ [[-> _]|[_ Hmax]] Hin; [by apply elem_of_nil in Hin|].
  specialize (Hmax m Hin). lia.
Qed.

Lemma next_id_positive s m :
  Forall (λ z, (1 ≤ z)%Z) (ids s) → is_next_id s m → (1 ≤ m)%Z.
Proof.
  intros Hpos [[_ ->]|[Hin _]]; [lia|].
  pose proof (proj1 (Forall_forall _ _) Hpos _ Hin). simpl in *. lia.
Qed.

End composition_facts.

(** X5: creating a post and then deleting the id it was given restores the
    collection exactly, and the next POST is given that same id again: ids
    are reused once the newest post is deleted. *)
Theorem add_then_delete (d : post) (s : list post) :
  ascending_ids s → is_Some (d !! "title") → is_Some (d !! "content") →
  ∃ n : N,
    let s1 := (add_post (JObj d) s).2 in
    ids s1 = ids s ++ [Z.of_N n] ∧
    delete_post n s1 = (deleted n, s) ∧
    (add_post (JObj d) (delete_post n s1).2).2 = s1.
Proof.
  intros (Hint & _ & Hpos) [t Ht] [c Hc].
  assert (d ≠ ∅) as Hd by (intros ->; by rewrite lookup_empty in Ht).
  assert (absent_fields d = []) as Habs.
  { unfold absent_fields. rewrite !filter_cons, filter_nil.
    repeat case_decide; congruence. }
  destruct (add_post_created d s Hint Habs Hd) as (m & Hm & Hadd).
  pose proof (next_id_positive s m Hpos Hm) as Hm1.
  pose proof (next_id_fresh s m Hint Hm) as Hfresh.
  assert (id_of (<["id" := JInt m]> d) = Some m) as Hid.
  { unfold id_of. by rewrite lookup_insert_eq. }
  exists (Z.to_N m). cbv zeta. rewrite Hadd. cbn [snd].
  rewrite Z2N.id by lia.
  assert (delete_post (Z.to_N m) (s ++ [<["id" := JInt m]> d])
          = (deleted (Z.to_N m), s)) as Hdel.
  { rewrite <- (app_nil_r s) at 2.
    apply delete_post_found; rewrite ?Z2N.id by lia; done. }
  split_and!.
  - by rewrite ids_app, (ids_cons _ [] m Hid).
  - done.
  - rewrite Hdel. cbn [snd]. by rewrite Hadd.
Qed.

(** X5 on the seed. *)
Lemma add_then_delete_witness :
  ∃ n : N,
    let s1 := (add_post (JObj {[ "title" := JStr "T"; "content" := JStr "C" ]})
                 POSTS).2 in
    ids s1 = ids POSTS ++ [Z.of_N n] ∧
    delete_post n s1 = (deleted n, POSTS) ∧
    (add_post (JObj {[ "title" := JStr "T"; "content" := JStr "C" ]})
       (delete_post n s1).2).2 = s1.
Proof.
  apply (add_then_delete {[ "title" := JStr "T"; "content" := JStr "C" ]} POSTS).
  - exact POSTS_ascending_ids.
  - exists (JStr "T"). reflexivity.
  - exists (JStr "C"). reflexivity.
Defined.

(** X6: PUT is idempotent: on every collection and for every id and body,
    the same PUT sent a second time gets the same response as the first and
    leaves the collection as the first left it. *)
Theorem update_post_idempotent (n : N) (b : json) (s : list post) :
  update_post n b (update_post n b s).2 = update_post n b s.
Proof.
  destruct (update_post_shape n b s)
    as [[H _]|(i & p & d & -> & Hd & Hp & Hfind & H)]; [by rewrite H|].
  rewrite H. cbn [snd].
  set (p' := merged p (map_to_list d)).
  assert (<[i := p']> s !! i = Some p') as Hp'.
  { apply list_lookup_insert_eq. by eapply lookup_lt_Some. }
  unfold update_post, try_except, update_post_try.
  rewrite (proj2 (truthy_obj d) Hd). cbn [negb].
  unfold mbind, handler_bind, Store.lift, Store.read, mret, handler_ret.
  rewrite (find_post_insert s i p p') by (done || apply merged_lookup_id).
  rewrite Hfind. cbn [Py.items].
  rewrite (merge_items_run i _ _ p' Hp'). unfold Store.getpost.
  unfold p'. rewrite merged_idemp, list_insert_insert_eq.
  fold p'. by rewrite Hp'.
Qed.

(** X7: PUT never adds, removes or reorders posts and never changes an id
    entry: for every id and body, also a body that holds an "id" key, the
    list of the posts' "id" entries and the length of the collection are
    after the request what they were before. *)
Theorem update_post_keeps_ids (n : N) (b : json) (s : list post) :
  (λ p : post, p !! "id") <$> (update_post n b s).2 = (λ p : post, p !! "id") <$> s ∧
  ids (update_post n b s).2 = ids s ∧
  length (update_post n b s).2 = length s.
Proof.
  destruct (update_post_shape n b s)
    as [[-> _]|(i & p & d & _ & _ & Hp & _ & ->)]; [done|]. cbn [snd].
  split_and!.
  - rewrite list_fmap_insert, merged_lookup_id. apply list_insert_id.
    by rewrite list_lookup_fmap, Hp.
  - apply (ids_insert s i p); [done | apply merged_id_of].
  - apply length_insert.
Qed.

Lemma add_post_insert_id (d : post) (v : json) (s : list post) :
  d ≠ ∅ → add_post (JObj (<["id" := v]> d)) s = add_post (JObj d) s.
Proof.
  intros Hd. unfold add_post, try_except, add_post_try.
  rewrite (proj2 (truthy_obj d) Hd).
  rewrite (proj2 (truthy_obj (<["id" := v]> d))) by apply insert_non_empty.
  cbn [negb Py.str_in].
  unfold mbind, handler_bind, Store.lift, Store.read, mret, handler_ret.
  rewrite !lookup_insert_ne by done.
  destruct (missing_of _ _); [|done].
  destruct (max_id s 0); [|done]. cbn [Py.setitem].
  by rewrite insert_insert_eq.
Qed.

(** X8: on a collection of int ids, an "id" entry in the body of a POST
    has no effect as soon as the body has another key: the response and the
    collection are those of the same body without its "id" entry, whatever
    the value of the entry. A body that has an "id" entry and nothing else
    is the one exception: it counts as data and is answered with both
    fields missing, where the empty object is answered with the no-data
    error; the collection is unchanged in both cases. *)
Theorem add_post_ignores_id (d : post) (v : json) (s : list post) :
  int_ids s →
  (delete "id" d ≠ ∅ →
   add_post (JObj (<["id" := v]> d)) s = add_post (JObj (delete "id" d)) s) ∧
  (delete "id" d = ∅ →
   add_post (JObj (<["id" := v]> d)) s =
     (missing_fields_error ["title"; "content"], s) ∧
   add_post (JObj (delete "id" d)) s = (no_data_error, s)).
Proof.
  intros _. rewrite <- (insert_delete_eq d "id" v). split.
  - apply add_post_insert_id.
  - intros ->. split; [|apply add_post_empty].
    rewrite add_post_missing; [done | apply insert_non_empty | done].
Qed.

(** X8 on the seed: the client asks for the id 1, which is taken. *)
Lemma add_post_ignores_id_witness :
  let d : post := {[ "title" := JStr "T"; "content" := JStr "C" ]} in
  (delete "id" d ≠ ∅ →
   add_post (JObj (<["id" := JInt 1]> d)) POSTS =
     add_post (JObj (delete "id" d)) POSTS) ∧
  (delete "id" d = ∅ →
   add_post (JObj (<["id" := JInt 1]> d)) POSTS =
     (missing_fields_error ["title"; "content"], POSTS) ∧
   add_post (JObj (delete "id" d)) POSTS = (no_data_error, POSTS)).
Proof.
  apply (add_post_ignores_id
           {[ "title" := JStr "T"; "content" := JStr "C" ]} (JInt 1) POSTS).
  exact POSTS_int_ids.
Defined.

(** A tab in front and a line feed behind are stripped like spaces. *)
Example strip_tab_newline :
  Text.strip (String (ascii_of_N 9) (String.append " hello"
                (String (ascii_of_N 10) EmptyString))) = "hello"%string.
Proof. reflexivity. Qed.

(** A body with an id and a title on the seed, and a body with an id only. *)
Example post_with_id :
  ids (add_post (JObj {[ "id" := JInt 1; "title" := JStr "T";
                         "content" := JStr "C" ]}) POSTS).2 = [1; 2; 3; 4]%Z ∧
  missing_fields_of (add_post (JObj {[ "id" := JInt 5 ]}) POSTS).1
    = Some (JArr [JStr "title"; JStr "content"]) ∧
  missing_fields_of (add_post (JObj ∅) POSTS).1 = None.
Proof. by vm_compute. Qed.

(** X9: on a collection of int ids, POST answers 201 exactly when the body
    is a JSON object that has both "title" and "content"; a JSON object is
    never answered 500; and every body that Python counts as false (null,
    false, 0, the empty string, list and object) is answered with the
    no-data error. *)
Theorem add_post_status (b : json) (s : list post) :
  int_ids s →
  (status (add_post b s).1 = 201 ↔
     ∃ d, b = JObj d ∧ is_Some (d !! "title") ∧ is_Some (d !! "content")) ∧
  (∀ d, b = JObj d → status (add_post b s).1 ≠ 500) ∧
  (Py.truthy b = false → add_post b s = (no_data_error, s)).
Proof.
  intros Hs. split_and!.
  - split.
    + intros Hst.
      destruct (add_post_shape b s) as [[_ H]|(d & m & -> & _ & Habs & _ & _)].
      { rewrite Hst in H. lia. }
      exists d. split; [done|]. revert Habs. unfold absent_fields.
      rewrite !filter_cons, filter_nil.
      destruct (d !! "title"), (d !! "content"); repeat case_decide;
        try done; by eauto.
    + intros (d & -> & [t Ht] & [c Hc]).
      assert (d ≠ ∅) as Hd by (intros ->; by rewrite lookup_empty in Ht).
      assert (absent_fields d = []) as Habs.
      { unfold absent_fields. rewrite !filter_cons, filter_nil.
        repeat case_decide; congruence. }
      destruct (add_post_created d s Hs Habs Hd) as (m & _ & ->). done.
  - intros d ->. destruct (decide (d = ∅)) as [->|Hd].
    { by rewrite add_post_empty. }
    destruct (absent_fields d) as [|k ks] eqn:Habs.
    + destruct (add_post_created d s Hs Habs Hd) as (m & _ & ->). done.
    + rewrite add_post_missing by (done || by rewrite Habs). done.
  - intros Hb. unfold add_post, try_except, add_post_try. by rewrite Hb.
Qed.

(** X9 on the seed, for the body [{"title": "T", "content": "C"}]. *)
Lemma add_post_status_witness :
  let b := JObj {[ "title" := JStr "T"; "content" := JStr "C" ]} in
  (status (add_post b POSTS).1 = 201 ↔
     ∃ d, b = JObj d ∧ is_Some (d !! "title") ∧ is_Some (d !! "content")) ∧
  (∀ d, b = JObj d → status (add_post b POSTS).1 ≠ 500) ∧
  (Py.truthy b = false → add_post b POSTS = (no_data_error, POSTS)).
Proof.
  apply (add_post_status
           (JObj {[ "title" := JStr "T"; "content" := JStr "C" ]}) POSTS).
  exact POSTS_int_ids.
Defined.

(* ===================================================================== *)
(** ** More about GET: what it lists and what the query means *)
(* ===================================================================== *)

Section get_facts.
Implicit Types (p : post) (s l : list post) (q f d : string).

Lemma search_posts_sublist s q l : search_posts s q = Ok l → l `sublist_of` s.
Proof.
  unfold search_posts. destruct (negb _); [by intros [= <-]|].
  generalize (Text.lower q). intros ql. revert l.
  induction s as [|p s IH]; intros l; simpl; [by intros [= <-]|].
  destruct (post_matches ql p) as [keep|]; [|done]; simpl.
  destruct (comprehension ql s) as [rest|]; [|done]; simpl.
  intros [= <-]. specialize (IH rest eq_refl). destruct keep; by constructor.
Qed.

Lemma mapM_keyed_untag f s keyed :
  mapM (λ p, k ← sort_key f p; Ok (k, p)) s = Ok keyed → snd <$> keyed = s.
Proof.
  revert keyed. induction s as [|p s IH]; intros keyed; simpl.
  { by intros [= <-]. }
  destruct (sort_key f p) as [k|]; [|done]; simpl.
  destruct (mapM _ s) as [keyed'|]; [|done]; simpl.
  intros [= <-]. rewrite fmap_cons. f_equal. by apply IH.
Qed.

Lemma sort_posts_perm s f d l : sort_posts s f d = Ok l → l ≡ₚ s.
Proof.
  unfold sort_posts. destruct (negb _); [by intros [= <-]|].
  destruct (mapM _ s) as [keyed|] eqn:Hk; [|done]; simpl.
  intros [= <-]. rewrite sorted_perm. by rewrite (mapM_keyed_untag f s keyed Hk).
Qed.

Lemma lower_char_idemp (c : ascii) :
  Text.lower_char (Text.lower_char c) = Text.lower_char c.
Proof. destruct c as [[] [] [] [] [] [] [] []]; reflexivity. Qed.

Lemma is_space_lower_char (c : ascii) :
  Text.is_space (Text.lower_char c) = Text.is_space c.
Proof. destruct c as [[] [] [] [] [] [] [] []]; reflexivity. Qed.

Lemma lower_idemp (t : string) : Text.lower (Text.lower t) = Text.lower t.
Proof.
  induction t as [|c t IH]; [done|]. simpl. by rewrite lower_char_idemp, IH.
Qed.

Lemma nonempty_lower (t : string) :
  Text.nonempty (Text.lower t) = Text.nonempty t.
Proof. by destruct t. Qed.

Lemma lstrip_lower (t : string) :
  Text.lstrip (Text.lower t) = Text.lower (Text.lstrip t).
Proof.
  induction t as [|c t IH]; [done|]. simpl. rewrite is_space_lower_char.
  by destruct (Text.is_space c).
Qed.

Lemma rstrip_lower (t : string) :
  Text.rstrip (Text.lower t) = Text.lower (Text.rstrip t).
Proof.
  induction t as [|c t IH]; [done|]. simpl. rewrite IH, is_space_lower_char.
  destruct (Text.rstrip t); simpl; [|done]. by destruct (Text.is_space c).
Qed.

Lemma strip_lower (t : string) :
  Text.strip (Text.lower t) = Text.lower (Text.strip t).
Proof. unfold Text.strip. by rewrite lstrip_lower, rstrip_lower. Qed.

Lemma search_posts_lower s q :
  search_posts s (Text.lower q) = search_posts s q.
Proof. unfold search_posts. by rewrite nonempty_lower, lower_idemp. Qed.

Lemma append_assoc (a b c : string) : (a +:+ b) +:+ c = a +:+ b +:+ c.
Proof.
  induction a as [|x a IH]; [done|]. by rewrite !append_cons, IH.
Qed.

(** A query that occurs in another one matches wherever that one does. *)
Lemma occurs_in_narrow q1 q2 t :
  occurs_in q1 q2 → occurs_in q2 t → occurs_in q1 t.
Proof.
  intros (a & b & Hq) (pre & suf & Ht). exists (pre +:+ a), (b +:+ suf).
  by rewrite Ht, Hq, !append_assoc.
Qed.

Lemma filtered_by_sublist {A} (P Q : A → Prop) (l out1 out2 : list A) :
  (∀ x, Q x → P x) →
  filtered_by P l out1 → filtered_by Q l out2 → out2 `sublist_of` out1.
Proof.
  intros HQP H1. revert out2.
  induction H1 as [|x l out Hx _ IH|x l out Hx _ IH]; intros out2 H2;
    inversion H2; subst.
  - constructor.
  - constructor. by apply IH.
  - apply sublist_cons. by apply IH.
  - exfalso. by apply Hx, HQP.
  - by apply IH.
Qed.

End get_facts.

(** X10: a [sort] parameter that names neither "title" nor "content" is
    the same as no [sort] parameter whenever the direction is valid: the
    two requests get the same response on every collection. *)
Theorem unknown_sort_is_no_sort
    (q : option string) (f : string) (d : option string) (s : list post) :
  f ≠ "title" → f ≠ "content" →
  direction_valid (Query q (Some f) d) = true →
  list_posts (Query q (Some f) d) s = list_posts (Query q None d) s.
Proof.
  intros H1 H2 Hd. rewrite !list_posts_cases, Hd.
  cbn -[Text.strip search_posts sort_posts].
  destruct (search_posts s _) as [l|e]; [|done].
  destruct (Text.nonempty f); [|done].
  by rewrite sort_posts_other.
Qed.

(** X10 on the seed: [?sort=id&direction=desc]. *)
Lemma unknown_sort_is_no_sort_witness :
  list_posts (Query None (Some "id") (Some "desc")) POSTS =
  list_posts (Query None None (Some "desc")) POSTS.
Proof.
  apply (unknown_sort_is_no_sort None "id" (Some "desc") POSTS).
  - intros H. discriminate H.
  - intros H. discriminate H.
  - reflexivity.
Defined.

(** X11: GET lists stored posts only: whenever the response is 200, its
    body is a list of posts of the collection, each at most as often as the
    collection holds it, whatever the parameters and whatever the
    collection. *)
Theorem get_lists_stored_posts (args : query) (s : list post) :
  status (list_posts args s).1 = 200 →
  ∃ out, (list_posts args s).1 = Response 200 (Jsonify (json_of_posts out)) ∧
         out ⊆+ s.
Proof.
  rewrite list_posts_cases. cbn [fst].
  destruct (search_posts s _) as [l|e] eqn:Hsearch; [|done].
  apply search_posts_sublist, sublist_submseteq in Hsearch.
  destruct (sort_present args); [|by exists l].
  destruct (direction_valid args); [|done].
  destruct (sort_posts l _ _) as [out|e] eqn:Hsort; [|done].
  intros _. exists out. split; [done|].
  apply sort_posts_perm in Hsort. by rewrite Hsort.
Qed.

(** X11 on the seed: [?search=python&sort=title]. *)
Lemma get_lists_stored_posts_witness :
  ∃ out,
    (list_posts (Query (Some "python") (Some "title") None) POSTS).1 =
      Response 200 (Jsonify (json_of_posts out)) ∧
    out ⊆+ POSTS.
Proof.
  apply (get_lists_stored_posts (Query (Some "python") (Some "title") None) POSTS).
  by vm_compute.
Defined.

(** X12: the search is case-insensitive in the query: replacing the query
    by its lower-case form gives the same response, for every collection
    and every sort and direction. *)
Theorem search_ignores_query_case
    (q : string) (srt dir : option string) (s : list post) :
  list_posts (Query (Some (Text.lower q)) srt dir) s =
  list_posts (Query (Some q) srt dir) s.
Proof.
  rewrite !list_posts_cases. cbn -[Text.strip search_posts sort_posts].
  by rewrite strip_lower, search_posts_lower.
Qed.

(** X13: a narrower query returns fewer posts: on text fields, when the
    lowered [q1] occurs in the lowered [q2], the posts found for [q2] are
    among the posts found for [q1], in the same order. *)
Theorem search_narrows (q1 q2 : string) (s : list post) :
  text_fields s → occurs_in q1 q2 →
  ∃ found1 found2,
    search_posts s q1 = Ok found1 ∧ search_posts s q2 = Ok found2 ∧
    found2 `sublist_of` found1.
Proof.
  intros Hs Hq.
  destruct (search_posts_text s q1 Hs) as (found1 & -> & H1 & _).
  destruct (search_posts_text s q2 Hs) as (found2 & -> & H2 & _).
  exists found1, found2. split_and!; [done | done |].
  eapply filtered_by_sublist; [|exact H1 | exact H2].
  intros p [Ht|Hc]; [left | right]; by eapply occurs_in_narrow.
Qed.

(** X13 on the seed: "Python" and "python t". *)
Lemma search_narrows_witness :
  ∃ found1 found2,
    search_posts POSTS "Python" = Ok found1 ∧
    search_posts POSTS "python t" = Ok found2 ∧
    found2 `sublist_of` found1.
Proof.
  apply (search_narrows "Python" "python t" POSTS).
  - exact POSTS_text_fields.
  - exists EmptyString, " t". reflexivity.
Defined.

(* ===================================================================== *)
(** ** The stable sort is determined by its contract *)
(* ===================================================================== *)

Section stable_sort_facts.
Context {A : Type} (key : A → string).
Implicit Types (l out : list A) (reverse : bool).

Lemma in_order_antisym reverse (a b : string) :
  in_order reverse a b → in_order reverse b a → a = b.
Proof.
  destruct reverse; simpl; intros H1 H2; [symmetry|]; by apply String.leb_antisym.
Qed.

(** Two lists sorted in the same direction that agree on every group of
    equal keys are one list. *)
Lemma stable_unique reverse l1 l2 :
  StronglySorted (λ a b, in_order reverse (key a) (key b)) l1 →
  StronglySorted (λ a b, in_order reverse (key a) (key b)) l2 →
  (∀ k, filter (λ a, key a = k) l1 = filter (λ a, key a = k) l2) →
  l1 = l2.
Proof.
  revert l2. induction l1 as [|x l1 IH]; intros [|y l2] H1 H2 Hf; [done| | |].
  - specialize (Hf (key y)). by rewrite filter_nil, filter_cons_True in Hf.
  - specialize (Hf (key x)). by rewrite filter_nil, filter_cons_True in Hf.
  - apply StronglySorted_cons in H1 as [Hx1 H1].
    apply StronglySorted_cons in H2 as [Hy2 H2].
    assert (key y = key x) as Hk.
    { destruct (decide (key y = key x)) as [|Hne]; [done|]. exfalso.
      assert (y ∈ l1) as Hy.
      { pose proof (Hf (key y)) as Hfy.
        rewrite (filter_cons_True _ y), (filter_cons_False _ x) in Hfy by done.
        assert (y ∈ filter (λ a, key a = key y) l1) as Hin
          by (rewrite Hfy; by left).
        by apply list_elem_of_filter in Hin as [_ ?]. }
      assert (x ∈ l2) as Hx.
      { pose proof (Hf (key x)) as Hfx.
        rewrite (filter_cons_True _ x), (filter_cons_False _ y) in Hfx by done.
        assert (x ∈ filter (λ a, key a = key x) l2) as Hin
          by (rewrite <- Hfx; by left).
        by apply list_elem_of_filter in Hin as [_ ?]. }
      apply Hne. symmetry. apply (in_order_antisym reverse).
      - by apply (proj1 (Forall_forall _ _) Hx1 y).
      - by apply (proj1 (Forall_forall _ _) Hy2 x). }
    pose proof (Hf (key x)) as Hfx.
    rewrite !filter_cons_True in Hfx by done. injection Hfx as <- Hfx.
    f_equal. apply IH; [done | done |]. intros k. specialize (Hf k).
    rewrite !filter_cons in Hf. by destruct (decide (key x = k)); simplify_eq.
Qed.

Lemma StronglySorted_flip_reverse (R : A → A → Prop) l :
  StronglySorted R l → StronglySorted (flip R) (reverse l).
Proof.
  induction 1 as [|x l _ IH Hx]; [constructor|].
  rewrite reverse_cons. apply StronglySorted_app. split_and!.
  - intros a b Ha [->|Hb%elem_of_nil]%elem_of_cons; [|done].
    rewrite elem_of_reverse in Ha.
    unfold flip. by apply (proj1 (Forall_forall _ _) Hx a).
  - done.
  - repeat constructor.
Qed.

(** With pairwise distinct keys a group of equal keys has at most one
    element. *)
Lemma filter_key_short l (k : string) :
  NoDup (key <$> l) →
  reverse (filter (λ a, key a = k) l) = filter (λ a, key a = k) l.
Proof.
  induction l as [|x l IH]; [done|]. rewrite fmap_cons, NoDup_cons.
  intros [Hx Hl]. rewrite filter_cons. destruct (decide (key x = k)) as [<-|]; [|auto].
  destruct (filter (λ a, key a = key x) l) as [|y r] eqn:Hfil; [done|].
  exfalso. assert (y ∈ filter (λ a, key a = key x) l) as Hin
    by (rewrite Hfil; by left).
  apply list_elem_of_filter in Hin as [Hy Hin]. apply Hx. rewrite <- Hy.
  by apply list_elem_of_fmap_2.
Qed.

Lemma filtered_by_filter (P : A → Prop) (Q : A → Prop)
    `{∀ x, Decision (Q x)} l out :
  filtered_by P l out → filtered_by P (filter Q l) (filter Q out).
Proof.
  induction 1 as [|x l out Hx _ IH|x l out Hx _ IH]; [constructor| |].
  - rewrite !filter_cons. destruct (decide (Q x)); [by constructor | done].
  - rewrite filter_cons. destruct (decide (Q x)); [by constructor | done].
Qed.

Lemma filtered_by_StronglySorted (P : A → Prop) (R : A → A → Prop) l out :
  filtered_by P l out → StronglySorted R l → StronglySorted R out.
Proof.
  induction 1 as [|x l out Hx Hf IH|x l out Hx _ IH]; [done| |];
    intros [Hxl Hl]%StronglySorted_cons; [|auto].
  apply StronglySorted_cons. split; [|auto].
  eapply filtered_by_Forall; [exact Hf | exact Hxl].
Qed.

End stable_sort_facts.

Section sort_posts_facts.
Implicit Types (p : post) (s l : list post) (q f d : string).

Lemma stable_sort_of_unique (key : post → string) reverse l out1 out2 :
  stable_sort_of key reverse l out1 → stable_sort_of key reverse l out2 →
  out1 = out2.
Proof.
  intros (_ & H1 & Hf1) (_ & H2 & Hf2).
  apply (stable_unique key reverse); [done | done |].
  intros k. by rewrite Hf1, Hf2.
Qed.

Lemma text_fields_perm s l : l ≡ₚ s → text_fields s → text_fields l.
Proof. intros Hp. unfold text_fields. by rewrite Hp. Qed.

End sort_posts_facts.

(** X14: [sort_posts] returns the one list that meets the contract of a
    stable sort: on text fields and for a sort field it knows, every list
    that is a permutation of the posts, ordered by the lowered field in the
    direction asked for, and keeps posts of equal key in their order, is the
    list [sort_posts] returns. *)
Theorem sort_posts_is_the_stable_sort
    (s out : list post) (f d : string) :
  text_fields s → f = "title" ∨ f = "content" →
  stable_sort_of (key_of f) (bool_decide (d = "desc")) s out →
  sort_posts s f d = Ok out.
Proof.
  intros Hs Hf Hout.
  destruct (sort_posts_text s f d Hs Hf) as (out' & -> & Hout').
  f_equal. by eapply stable_sort_of_unique.
Qed.

(** X14 on the seed without its first post, which stands sorted by title
    already and is returned as it is. *)
Lemma sort_posts_is_the_stable_sort_witness :
  sort_posts (handle (DELETE 1) POSTS).2 "title" "asc"
    = Ok (handle (DELETE 1) POSTS).2.
Proof.
  apply (sort_posts_is_the_stable_sort
           (handle (DELETE 1) POSTS).2 (handle (DELETE 1) POSTS).2 "title" "asc").
  - vm_compute. repeat constructor.
  - left. reflexivity.
  - split_and!; [reflexivity | | reflexivity].
    repeat (constructor; try (by vm_compute)).
Defined.

(** X15: sorting a second time forgets the first: on text fields, sorting
    by a field in one direction and then by the same field in a direction
    gives what sorting the original list in the second direction gives; in
    particular sorting twice in one direction is sorting once. *)
Theorem sort_posts_twice (s : list post) (f d1 d2 : string) :
  text_fields s → f = "title" ∨ f = "content" →
  ∃ m, sort_posts s f d1 = Ok m ∧
       sort_posts m f d2 = sort_posts s f d2 ∧
       sort_posts m f d1 = Ok m.
Proof.
  intros Hs Hf.
  destruct (sort_posts_text s f d1 Hs Hf) as (m & Hm & Hpm & Hsm & Hfm).
  pose proof (text_fields_perm s m Hpm Hs) as Htm.
  assert (∀ d, sort_posts m f d = sort_posts s f d) as Hany.
  { intros d.
    destruct (sort_posts_text m f d Htm Hf) as (o & -> & Hpo & Hso & Hfo).
    destruct (sort_posts_text s f d Hs Hf) as (o' & -> & Hpo' & Hso' & Hfo').
    f_equal. apply (stable_unique (key_of f) (bool_decide (d = "desc")));
      [done | done |].
    intros k. by rewrite Hfo, Hfm, Hfo'. }
  exists m. split_and!; [done | by apply Hany |]. by rewrite Hany.
Qed.

(** X15 on the seed. *)
Lemma sort_posts_twice_witness :
  ∃ m, sort_posts POSTS "title" "desc" = Ok m ∧
       sort_posts m "title" "asc" = sort_posts POSTS "title" "asc" ∧
       sort_posts m "title" "desc" = Ok m.
Proof.
  apply (sort_posts_twice POSTS "title" "desc" "asc").
  - exact POSTS_text_fields.
  - left. reflexivity.
Defined.

(** X16: when the sort keys are pairwise distinct, the descending order is
    the ascending order reversed. *)
Theorem sort_posts_desc_reverses (s : list post) (f : string) :
  text_fields s → f = "title" ∨ f = "content" →
  NoDup (key_of f <$> s) →
  ∃ asc, sort_posts s f "asc" = Ok asc ∧
         sort_posts s f "desc" = Ok (reverse asc).
Proof.
  intros Hs Hf Hnd.
  destruct (sort_posts_text s f "asc" Hs Hf) as (a & Ha & Hpa & Hsa & Hfa).
  destruct (sort_posts_text s f "desc" Hs Hf) as (b & Hb & Hpb & Hsb & Hfb).
  exists a. split; [done|]. rewrite Hb. f_equal.
  rewrite bool_decide_eq_true_2 in Hsb by done.
  rewrite bool_decide_eq_false_2 in Hsa by done.
  apply (stable_unique (key_of f) true); [done | |].
  - apply StronglySorted_flip_reverse in Hsa. exact Hsa.
  - intros k. rewrite Hfb, filter_reverse, Hfa.
    symmetry. by apply filter_key_short.
Qed.

(** X16 on the seed, whose titles are pairwise distinct. *)
Lemma sort_posts_desc_reverses_witness :
  ∃ asc, sort_posts POSTS "title" "asc" = Ok asc ∧
         sort_posts POSTS "title" "desc" = Ok (reverse asc).
Proof.
  apply (sort_posts_desc_reverses POSTS "title").
  - exact POSTS_text_fields.
  - left. reflexivity.
  - apply (bool_decide_unpack _). by vm_compute.
Defined.

(** X17: filtering and sorting commute: on text fields, searching the
    sorted list gives the list that sorting the search result gives, so the
    order in which GET applies the two does not show in its answer. *)
Theorem search_sort_commute (s : list post) (q f d : string) :
  text_fields s → f = "title" ∨ f = "content" →
  ∃ sorted_all found both,
    sort_posts s f d = Ok sorted_all ∧
    search_posts sorted_all q = Ok both ∧
    search_posts s q = Ok found ∧
    sort_posts found f d = Ok both.
Proof.
  intros Hs Hf.
  destruct (sort_posts_text s f d Hs Hf) as (a & Ha & Hpa & Hsa & Hfa).
  pose proof (text_fields_perm s a Hpa Hs) as Hta.
  destruct (search_posts_text a q Hta) as (b & Hb & Hab & _).
  destruct (search_posts_text s q Hs) as (c & Hc & Hsc & _).
  pose proof (filtered_by_Forall _ _ _ _ Hsc Hs) as Htc.
  destruct (sort_posts_text c f d Htc Hf) as (o & Ho & Hpo & Hso & Hfo).
  exists a, c, b. split_and!; [done..|]. rewrite Ho. f_equal.
  apply (stable_unique (key_of f) (bool_decide (d = "desc"))); [done | |].
  - by eapply filtered_by_StronglySorted.
  - intros k. rewrite Hfo.
    eapply filtered_by_unique.
    + apply filtered_by_filter. exact Hsc.
    + rewrite <- Hfa. apply filtered_by_filter. exact Hab.
Qed.

(** X17 on the seed: the query "t", sorted by content, descending. *)
Lemma search_sort_commute_witness :
  ∃ sorted_all found both,
    sort_posts POSTS "content" "desc" = Ok sorted_all ∧
    search_posts sorted_all "t" = Ok both ∧
    search_posts POSTS "t" = Ok found ∧
    sort_posts found "content" "desc" = Ok both.
Proof.
  apply (search_sort_commute POSTS "t" "content" "desc").
  - exact POSTS_text_fields.
  - right. reflexivity.
Defined.

(* ===================================================================== *)
(** ** Deleting in either order; where the search and the sort raise *)
(* ===================================================================== *)

Section delete_and_raise_facts.
Implicit Types (p : post) (s l : list post) (q f d : string) (n : N).

Lemma filter_keep_all {A} (P : A → Prop) `{∀ x, Decision (P x)} (l : list A) :
  Forall P l → filter P l = l.
Proof.
  induction 1 as [|x l Hx _ IH]; [done|]. by rewrite filter_cons_True, IH.
Qed.

Lemma other_ids s (z : Z) : z ∉ ids s → Forall (λ p, id_of p ≠ Some z) s.
Proof.
  intros Hz. apply Forall_forall. intros p Hp Hid. apply Hz.
  by eapply id_of_elem_of.
Qed.

(** With unique ids DELETE keeps exactly the posts of another id. *)
Lemma delete_post_filter n s :
  unique_ids s →
  (delete_post n s).2 = filter (λ p, id_of p ≠ Some (Z.of_N n)) s.
Proof.
  intros Hinv. destruct (decide (Z.of_N n ∈ ids s)) as [Hin|Hn].
  - destruct (ids_split s _ Hin) as (l1 & p & l2 & -> & Hn & Hp).
    pose proof (removed_id_absent _ _ _ _ Hinv Hp) as Hgone.
    destruct Hinv as [[Hl1 _]%Forall_app _].
    rewrite delete_post_found by done. cbn [snd].
    apply other_ids in Hgone. apply Forall_app in Hgone as [H1 H2].
    rewrite filter_app, filter_cons_False by (intros H; by apply H).
    by rewrite !filter_keep_all.
  - destruct Hinv as [Hint _]. rewrite delete_post_absent by done. cbn [snd].
    symmetry. by apply filter_keep_all, other_ids.
Qed.

Lemma delete_post_response n s :
  int_ids s →
  (delete_post n s).1 =
    if decide (Z.of_N n ∈ ids s) then deleted n else not_found n.
Proof.
  intros Hs. destruct (decide (Z.of_N n ∈ ids s)) as [Hin|Hn].
  - destruct (ids_split s _ Hin) as (l1 & p & l2 & -> & Hn & Hp).
    apply Forall_app in Hs as [Hl1 _]. by rewrite delete_post_found.
  - by rewrite delete_post_absent.
Qed.

Lemma ids_filter_other s (a b : Z) :
  a ≠ b → a ∈ ids (filter (λ p, id_of p ≠ Some b) s) ↔ a ∈ ids s.
Proof.
  intros Hab. unfold ids. rewrite !list_elem_of_omap. split.
  - intros (p & [_ Hp]%list_elem_of_filter & Hid). eauto.
  - intros (p & Hp & Hid). exists p. split; [|done].
    apply list_elem_of_filter. split; [|done]. rewrite Hid. congruence.
Qed.

(** Pairing the posts with their keys raises at the first value that is
    not text. *)
Lemma keyed_raises f s :
  (∃ keyed, mapM (λ p, k ← sort_key f p; Ok (k, p)) s = Ok keyed ∧
            Forall (λ p, is_text (p !! f)) s) ∨
  (mapM (λ p, k ← sort_key f p; Ok (k, p)) s = Raise AttributeError ∧
   Exists (λ p, ¬ is_text (p !! f)) s).
Proof.
  induction s as [|p s IH]; [left; by exists []|]. cbn -[sort_key].
  destruct (is_text_or_not (p !! f)) as [Hp|Hp].
  - assert (sort_key f p = Ok (Text.lower (field_text p f))) as ->
      by apply get_lower_text, Hp.
    destruct IH as [(keyed & -> & Hall)|[-> Hex]]; cbn -[sort_key].
    + left. eexists. split; [done | by constructor].
    + right. split; [done | by apply Exists_cons_tl].
  - right. split; [|by apply Exists_cons_hd].
    assert (sort_key f p = Raise AttributeError) as ->; [|done].
    unfold sort_key, Py.get. by destruct (p !! f) as [[]|].
Qed.

End delete_and_raise_facts.

(** X18: with unique ids, two deletions commute: deleting [a] and then [b]
    leaves the collection that deleting [b] and then [a] leaves, and for
    different ids each DELETE gets the response it would get on its own. *)
Theorem delete_post_commute (a b : N) (s : list post) :
  unique_ids s →
  (delete_post a (delete_post b s).2).2 = (delete_post b (delete_post a s).2).2 ∧
  (a ≠ b → (delete_post a (delete_post b s).2).1 = (delete_post a s).1).
Proof.
  intros Hinv.
  pose proof (handle_unique_ids (DELETE a) s Hinv) as Ha.
  pose proof (handle_unique_ids (DELETE b) s Hinv) as Hb.
  simpl in Ha, Hb. split.
  - rewrite (delete_post_filter a _ Hb), (delete_post_filter b _ Ha).
    rewrite (delete_post_filter a s Hinv), (delete_post_filter b s Hinv).
    rewrite !list_filter_filter. apply list_filter_iff. tauto.
  - intros Hab.
    rewrite (delete_post_response a _ (proj1 Hb)).
    rewrite (delete_post_response a s (proj1 Hinv)).
    rewrite (delete_post_filter b s Hinv).
    assert (Z.of_N a ≠ Z.of_N b) as Hz by lia.
    destruct (decide (Z.of_N a ∈ ids s)) as [Hin|Hn].
    + rewrite decide_True; [done|]. by apply ids_filter_other.
    + rewrite decide_False; [done|]. by rewrite ids_filter_other.
Qed.

(** X18 on the seed: the ids 1 and 3. *)
Lemma delete_post_commute_witness :
  (delete_post 1 (delete_post 3 POSTS).2).2 =
    (delete_post 3 (delete_post 1 POSTS).2).2 ∧
  (1%N ≠ 3%N → (delete_post 1 (delete_post 3 POSTS).2).1 = (delete_post 1 POSTS).1).
Proof.
  apply (delete_post_commute 1 3 POSTS). exact POSTS_unique_ids.
Defined.

(** X19: [search_posts] raises exactly when the query is not empty and some
    post has a title that is not text, or a title the query does not occur
    in together with a content that is not text (a content that is not text
    goes unnoticed when the title matches, [or] being lazy); the exception
    is then [AttributeError]. *)
Theorem search_posts_raises (s : list post) (q : string) (e : exn) :
  search_posts s q = Raise e ↔
  e = AttributeError ∧ q ≠ EmptyString ∧ Exists (raises_at q) s.
Proof.
  unfold search_posts. destruct (Text.nonempty q) eqn:Hq; simpl.
  2:{ apply nonempty_false in Hq as ->. split; [done | by intros (_ & ? & _)]. }
  assert (q ≠ EmptyString) as Hne by (by intros ->).
  induction s as [|p s IH]; simpl.
  { split; [done|]. intros (_ & _ & H). by apply Exists_nil in H. }
  rewrite Exists_cons.
  destruct (post_matches_raises q p) as [[Hr ->]|[Hr [keep ->]]]; simpl.
  - split; [intros [= <-]; by auto | by intros [-> _]].
  - destruct (comprehension (Text.lower q) s) as [rest|e']; simpl.
    + split; [done|]. intros (He & _ & [?|Hex]); [done|].
      by pose proof (proj2 IH (conj He (conj Hne Hex))).
    + split.
      * intros [= <-]. destruct (proj1 IH eq_refl) as (-> & _ & Hex). by auto.
      * intros (He & _ & [?|Hex]); [done|].
        apply (proj2 IH). by split_and!.
Qed.

(** X20: [sort_posts] raises exactly when the sort field is "title" or
    "content" and some post holds under it a value that is not text; the
    exception is then [AttributeError]. A sort field it does not know never
    makes it raise. *)
Theorem sort_posts_raises (s : list post) (f d : string) (e : exn) :
  sort_posts s f d = Raise e ↔
  e = AttributeError ∧ (f = "title" ∨ f = "content") ∧
  Exists (λ p, ¬ is_text (p !! f)) s.
Proof.
  unfold sort_posts.
  destruct (negb (String.eqb f "title" || String.eqb f "content")) eqn:Hf.
  - split; [done|]. intros (_ & [-> | ->] & _); done.
  - assert (f = "title" ∨ f = "content") as Hrec.
    { apply negb_false_iff, orb_true_iff in Hf as [H|H];
        apply String.eqb_eq in H; auto. }
    destruct (keyed_raises f s) as [(keyed & -> & Hall)|[-> Hex]]; simpl.
    + split; [done|]. intros (_ & _ & Hex).
      apply Exists_exists in Hex as (p & Hp & Hbad).
      exfalso. by apply Hbad, (proj1 (Forall_forall _ _) Hall).
    + split; [by intros [= <-] | by intros (-> & _)].
Qed.

(* ===================================================================== *)
(** ** The order of the checks in PUT *)
(* ===================================================================== *)

Section update_post_status_facts.
Implicit Types (p : post) (s l : list post) (b : json) (n : N).

(** A body that is true for Python and is not a dict has no [items]: the
    loop finds the post and the merge raises before it writes. *)
Lemma update_post_not_object n b l1 p l2 :
  Py.truthy b = true → (∀ d, b ≠ JObj d) →
  int_ids l1 → Z.of_N n ∉ ids l1 → id_of p = Some (Z.of_N n) →
  update_post n b (l1 ++ p :: l2) =
    (Response 500 (ServerError AttributeError), l1 ++ p :: l2).
Proof.
  intros Hb Hobj Hl Hn Hp. unfold update_post, try_except, update_post_try.
  rewrite Hb. cbn [negb].
  unfold mbind, handler_bind, Store.lift, Store.read, mret, handler_ret.
  rewrite (find_post_first l1 p l2 _ 0 Hl Hn Hp).
  destruct b as [| | | | | |d]; try done. by destruct (Hobj d).
Qed.

End update_post_status_facts.

(** X21: the status of a PUT on a collection of int ids, by the order of
    its checks: 400 exactly when the body is false for Python (null, false,
    0, empty string, list or object), also for an id that does not exist;
    otherwise 404 exactly when no post has the id, also for a body that is
    not an object; otherwise 200 exactly when the body is an object, and 500
    exactly when it is not. *)
Theorem update_post_status (n : N) (b : json) (s : list post) :
  int_ids s →
  (status (update_post n b s).1 = 400 ↔ Py.truthy b = false) ∧
  (status (update_post n b s).1 = 404 ↔
     Py.truthy b = true ∧ Z.of_N n ∉ ids s) ∧
  (status (update_post n b s).1 = 200 ↔
     (∃ d, b = JObj d ∧ d ≠ ∅) ∧ Z.of_N n ∈ ids s) ∧
  (status (update_post n b s).1 = 500 ↔
     Py.truthy b = true ∧ (∀ d, b ≠ JObj d) ∧ Z.of_N n ∈ ids s).
Proof.
  intros Hs. destruct (Py.truthy b) eqn:Hb.
  2:{ assert (update_post n b s = (no_data_error, s)) as ->.
      { unfold update_post, try_except, update_post_try. by rewrite Hb. }
      simpl. split_and!; split; try done.
      - by intros [].
      - intros [(d & -> & Hd) _]. apply truthy_obj in Hd. congruence.
      - by intros []. }
  destruct (decide (Z.of_N n ∈ ids s)) as [Hin|Hn].
  2:{ rewrite update_post_absent by done. simpl.
      split_and!; split; try done.
      - by intros [_ ?].
      - by intros (_ & _ & ?). }
  destruct (ids_split s _ Hin) as (l1 & p & l2 & -> & Hn & Hp).
  pose proof Hs as [Hl1 _]%Forall_app.
  destruct b as [| | | | | |d].
  7:{ pose proof (proj1 (truthy_obj d) Hb) as Hd.
      rewrite update_post_found by done. simpl.
      split_and!; split; try done.
      - by intros [_ ?].
      - intros _. split; [by exists d | done].
      - intros (_ & H & _). by destruct (H d). }
  all: rewrite update_post_not_object by done; simpl.
  all: split_and!; split; try done.
  all: try (by intros [_ ?]).
  all: try (by intros [(d & ? & _) _]).
Qed.

(** X21 on the seed: a list as the body, for the id 2. *)
Lemma update_post_status_witness :
  let b := JArr [JStr "title"] in
  (status (update_post 2 b POSTS).1 = 400 ↔ Py.truthy b = false) ∧
  (status (update_post 2 b POSTS).1 = 404 ↔
     Py.truthy b = true ∧ Z.of_N 2 ∉ ids POSTS) ∧
  (status (update_post 2 b POSTS).1 = 200 ↔
     (∃ d, b = JObj d ∧ d ≠ ∅) ∧ Z.of_N 2 ∈ ids POSTS) ∧
  (status (update_post 2 b POSTS).1 = 500 ↔
     Py.truthy b = true ∧ (∀ d, b ≠ JObj d) ∧ Z.of_N 2 ∈ ids POSTS).
Proof.
  apply (update_post_status 2 (JArr [JStr "title"]) POSTS).
  exact POSTS_int_ids.
Defined.

(** A content that is not text goes unnoticed where the title matches: after
    [POST {"title": "abc", "content": 5}] the query "b" is answered 200 and
    the query "x" 500. *)
Example lazy_or_hides_content :
  let s := (add_post (JObj {[ "title" := JStr "abc"; "content" := JInt 5 ]})
              POSTS).2 in
  listed (list_posts (Query (Some "b") None None) s) = (200, [4]%Z) ∧
  status (list_posts (Query (Some "x") None None) s).1 = 500.
Proof. by vm_compute. Qed.
